(** * ssmshare: a shallow embedding of [utils.py], [account.py] and [app.py]

    The development follows the three source modules.

    - Python values are typed the way the docstrings of the source type
      them: names, regions and instance ids are strings, [clusternames] is
      a list of strings, [clusterdetails] a dict keyed by cluster name.
      A decoded JSON object is a record of the keys the code subscripts,
      each of which may be absent (the subscript then raises [KeyError]).
    - A Python [dict] is an association list in insertion order with unique
      keys ([pydict]); this is the order [dict.keys()] iterates in.
    - Exceptions are values of [exn]; code that can raise returns a [result].
    - Code that reads or writes object attributes, or talks to the inventory
      service, is written in the state-and-exception monad [M]: the state
      that was reached when an exception is raised is kept, as in Python.
    - The inventory service is a parameter ([Inventory]): each answer may
      depend on the URL requested and on the requests sent before it, and
      every request is recorded in the state.
    - The [logger.debug] calls of [app.py] and [utils.py] format values
      that have been computed already and cannot raise; they are left out.
      The one of [account.py] evaluates a property that can raise, and is
      kept. *)

From Stdlib Require Import String Ascii List ZArith Lia Bool Arith.
From Stdlib Require Import Permutation Sorted.
From Equations Require Import Equations.
Import ListNotations.
Open Scope string_scope.
Open Scope list_scope.

Set Implicit Arguments.

(* ================================================================= *)
(** ** Python runtime: exceptions, results, dicts *)

Inductive exn : Type :=
| AssertionError (msg : string)      (* a failed [assert] *)
| KeyError (key : string)            (* subscript with an absent key *)
| IndexError                         (* list index out of range *)
| RequestException (info : string)   (* raised by [requests.get] *)
| JSONDecodeError (info : string).   (* raised by [Response.json()] *)

Inductive result (A : Type) : Type :=
| Ok (a : A)
| Raise (e : exn).
Arguments Ok {A} a.
Arguments Raise {A} e.

Definition rbind {A B} (r : result A) (k : A -> result B) : result B :=
  match r with
  | Ok a => k a
  | Raise e => Raise e
  end.

(** [for x in xs: acc = body(acc, x)] where the body may raise. *)
Fixpoint rfold {A B} (body : B -> A -> result B) (xs : list A) (acc : B)
  : result B :=
  match xs with
  | [] => Ok acc
  | x :: xs' => rbind (body acc x) (rfold body xs')
  end.

(** [[f(x) for x in xs]] where [f] may raise. *)
Fixpoint rmap {A B} (f : A -> result B) (xs : list A) : result (list B) :=
  match xs with
  | [] => Ok []
  | x :: xs' => rbind (f x) (fun y => rbind (rmap f xs') (fun ys => Ok (y :: ys)))
  end.

(** A [dict] with string keys: items in insertion order, keys unique. *)
Definition pydict (V : Type) : Type := list (string * V).

Fixpoint dict_get {V} (k : string) (d : pydict V) : option V :=
  match d with
  | [] => None
  | (k', v) :: d' => if (k' =? k)%string then Some v else dict_get k d'
  end.

(** [d[k] = v]: an existing key keeps its position, a new key goes last. *)
Fixpoint dict_set {V} (k : string) (v : V) (d : pydict V) : pydict V :=
  match d with
  | [] => [(k, v)]
  | (k', v') :: d' =>
      if (k' =? k)%string then (k', v) :: d' else (k', v') :: dict_set k v d'
  end.

Definition dict_keys {V} (d : pydict V) : list string := map fst d.

(** [d[k]] as an expression. *)
Definition getitem {V} (d : pydict V) (k : string) : result V :=
  match dict_get k d with
  | Some v => Ok v
  | None => Raise (KeyError k)
  end.

(** [obj[k]] on a decoded JSON object whose key [k] may be absent. *)
Definition getfield {V} (k : string) (field : option V) : result V :=
  match field with
  | Some v => Ok v
  | None => Raise (KeyError k)
  end.

(** Two dicts are equal in Python when they hold the same items, whatever
    the insertion order. *)
Definition dict_eq {V} (d1 d2 : pydict V) : Prop :=
  forall k, dict_get k d1 = dict_get k d2.

(* ----------------------------------------------------------------- *)
(** *** [str.format]

    A template is its literal text and its replacement fields, in order:
    [{}] is a field numbered automatically, [{name}] a keyword field.  The
    fields are filled from left to right; an automatic field with no
    positional argument left raises [IndexError], a keyword field with no
    such keyword argument raises [KeyError]; arguments that no field uses
    are ignored. *)

Inductive piece : Type :=
| Text (s : string)
| Auto
| Keyword (name : string).

Fixpoint str_format (template : list piece) (args : list string)
  (kwargs : pydict string) (auto : nat) : result string :=
  match template with
  | [] => Ok EmptyString
  | Text s :: rest =>
      rbind (str_format rest args kwargs auto) (fun r => Ok (s ++ r)%string)
  | Auto :: rest =>
      match nth_error args auto with
      | Some v =>
          rbind (str_format rest args kwargs (S auto))
                (fun r => Ok (v ++ r)%string)
      | None => Raise IndexError
      end
  | Keyword name :: rest =>
      match dict_get name kwargs with
      | Some v =>
          rbind (str_format rest args kwargs auto)
                (fun r => Ok (v ++ r)%string)
      | None => Raise (KeyError name)
      end
  end.

(* ----------------------------------------------------------------- *)
(** *** The state-and-exception monad *)

Definition M (S A : Type) : Type := S -> result A * S.

Definition ret {S A} (a : A) : M S A := fun s => (Ok a, s).

Definition raise {S A} (e : exn) : M S A := fun s => (Raise e, s).

Definition bind {S A B} (m : M S A) (k : A -> M S B) : M S B :=
  fun s =>
    match m s with
    | (Ok a, s') => k a s'
    | (Raise e, s') => (Raise e, s')
    end.

Definition lift {S A} (r : result A) : M S A := fun s => (r, s).

Definition get {S} : M S S := fun s => (Ok s, s).

Definition put {S} (s : S) : M S unit := fun _ => (Ok tt, s).

Declare Scope monad_scope.
Delimit Scope monad_scope with monad.
Notation "x <- m ;; k" := (bind m (fun x => k))
  (at level 61, m at next level, right associativity) : monad_scope.
Notation "m ;; k" := (bind m (fun _ => k))
  (at level 61, right associativity) : monad_scope.
Open Scope monad_scope.

(** [for x in xs: acc = body(acc, x)] in the monad. *)
Fixpoint foldM {S A B} (body : B -> A -> M S B) (xs : list A) (acc : B)
  : M S B :=
  match xs with
  | [] => ret acc
  | x :: xs' => acc' <- body acc x ;; foldM body xs' acc'
  end.

(* ----------------------------------------------------------------- *)
(** *** Builtins: [sorted] and [itertools.groupby] *)

Section Builtins.
Variables A : Type.

(** [sorted(l, key=key)] on string keys.  Insertion from the right: an
    element goes in front of the first element whose key is not smaller,
    so elements with equal keys keep their order (a stable sort). *)
Fixpoint insert_by (key : A -> string) (x : A) (l : list A) : list A :=
  match l with
  | [] => [x]
  | y :: l' =>
      if (key x <=? key y)%string then x :: y :: l'
      else y :: insert_by key x l'
  end.

Fixpoint sorted (key : A -> string) (l : list A) : list A :=
  match l with
  | [] => []
  | x :: l' => insert_by key x (sorted key l')
  end.

(** [groupby(l, key=key)]: the maximal runs of consecutive elements with
    equal keys, each with the key of its first element. *)
Fixpoint groupby (key : A -> string) (l : list A) : list (string * list A) :=
  match l with
  | [] => []
  | x :: l' =>
      match groupby key l' with
      | (k, run) :: runs =>
          if (key x =? k)%string then (key x, x :: run) :: runs
          else (key x, [x]) :: (k, run) :: runs
      | [] => [(key x, [x])]
      end
  end.
End Builtins.

(* ================================================================= *)
(** ** utils.py *)

Module utils.

(** [def flatten(self, deeplist)]: a function of the module with a first
    parameter [self] that the body does not use; the body is the
    comprehension [[item for sublist in deeplist for item in sublist]]. *)
Definition flatten {S A} (self : S) (deeplist : list (list A)) : list A :=
  flat_map (fun sublist => map (fun item => item) sublist) deeplist.

(** *** [gen_nums]

    A call of [gen_nums] makes a generator object with a frame of its
    own.  [frame] is the state of that frame: not started, suspended at
    the [yield] with the value of [n], or finished. *)
Inductive frame : Type :=
| Created
| Suspended (n : Z)
| Finished.

(** The loop test and the [yield] it guards. *)
Definition loop (n : Z) : option Z * frame :=
  if (n <? 10)%Z then (Some n, Suspended n) else (None, Finished).

(** Run the frame up to the next [yield]; [None] is [StopIteration]. *)
Definition resume (f : frame) : option Z * frame :=
  match f with
  | Created => loop 1
  | Suspended n => loop (n + 2)
  | Finished => (None, Finished)
  end.

(** The generator objects made so far; an object is its index. *)
Definition heap : Type := list frame.

Definition gen_nums (h : heap) : nat * heap := (List.length h, h ++ [Created]).

Fixpoint update (g : nat) (f : frame) (h : heap) : heap :=
  match h, g with
  | [], _ => []
  | _ :: h', O => f :: h'
  | f' :: h', S g' => f' :: update g' f h'
  end.

(** [next(g)]. *)
Definition next (g : nat) (h : heap) : option Z * heap :=
  match nth_error h g with
  | Some f => let (v, f') := resume f in (v, update g f' h)
  | None => (None, h)
  end.

(** How many values a frame can still yield, at most. *)
Definition remaining (f : frame) : nat :=
  match f with
  | Created => 10
  | Suspended n => Z.to_nat (10 - n)
  | Finished => 0
  end.

Definition left (g : nat) (h : heap) : nat :=
  match nth_error h g with
  | Some f => remaining f
  | None => 0
  end.

Definition inspect {A} (a : A) : {b : A | a = b} := exist _ a eq_refl.

(** [list(g)]: call [next(g)] until it raises [StopIteration]. *)
Equations? consume (g : nat) (h : heap) : list Z * heap
  by wf (left g h) lt :=
  consume g h with inspect (next g h) := {
    | exist _ (Some v, h') _ =>
        let (vs, h'') := consume g h' in (v :: vs, h'')
    | exist _ (None, h') _ => ([], h') }.
Proof.
  (* [next] yields only from a frame that moves closer to its end. *)
  unfold next, left in *.
  destruct (nth_error h g) as [f|] eqn:Hg; [|discriminate].
  destruct (resume f) as [w f'] eqn:Hr.
  injection e as -> <-.
  assert (Hup : forall (h0 : heap) g0,
             nth_error h0 g0 = Some f ->
             nth_error (update g0 f' h0) g0 = Some f').
  { induction h0 as [|f0 h0 IH]; intros [|g0]; simpl;
      try discriminate; auto. }
  rewrite (Hup h g Hg).
  destruct f as [|n|]; unfold resume, loop, remaining in *.
  - destruct (Z.ltb_spec 1 10); inversion Hr; subst; lia.
  - destruct (Z.ltb_spec (n + 2) 10); inversion Hr; subst; lia.
  - discriminate.
Qed.

End utils.

(* ================================================================= *)
(** ** account.py *)

Module Account.

(** An instance has one attribute, [name]. *)
Record t : Type := { name : string }.

(** The state of the module's [logger]: whether DEBUG records are emitted,
    and the records emitted so far. *)
Record logger : Type := { debug_enabled : bool; records : list string }.

(** [logger.debug(msg)]: the message is an argument, so it has been
    computed by the time the logger decides whether to emit it. *)
Definition logger_debug (msg : string) : M logger unit :=
  fun l =>
    (Ok tt,
     if debug_enabled l
     then {| debug_enabled := true; records := records l ++ [msg] |}
     else l).

Definition accountnumber : pydict string :=
  [("prod", "1234567890"); ("test", "0123456789")].

(** [@property number]. *)
Definition number (self : t) : result string :=
  let accountname := name self in
  if (accountname =? "prod")%string || (accountname =? "test")%string
  then getitem accountnumber accountname
  else Raise (AssertionError
                "This currently only works in the 'prod' or 'test' accounts.").

Definition dquote : string := String (ascii_of_nat 34) EmptyString.

(** ["AWS account object (name: \"{}\", number: \"{}\") created.".format] *)
Definition created_message (name number : string) : string :=
  ("AWS account object (name: " ++ dquote ++ name ++ dquote
   ++ ", number: " ++ dquote ++ number ++ dquote ++ ") created.")%string.

(** [Account(name)]. *)
Definition __init__ (name : string) : M logger t :=
  let self := {| name := name |} in
  number <- lift (number self) ;;
  logger_debug (created_message (Account.name self) number) ;;
  ret self.

End Account.

(* ================================================================= *)
(** ** app.py *)

(** *** The inventory service

    Decoded JSON of the two endpoints, typed as the code reads it; a key
    the code subscripts may be absent.  The listing endpoint answers with
    an object that maps account names to lists of cluster names, the
    detail endpoint with an object that has a [serverGroups] list. *)

Module Instance.
Record t : Type := { instanceId : option string }.
End Instance.

Module ServerGroup.
Record t : Type :=
  { name : option string;
    region : option string;
    instances : option (list Instance.t) }.
End ServerGroup.

Module ClusterDetail.
Record t : Type := { serverGroups : option (list ServerGroup.t) }.
End ClusterDetail.

(** What [requests.get] returns; [json] is [Response.json()]. *)
Record Response (B : Type) : Type := { json : result B }.

(** The service answers a GET from the URL and the URLs requested before
    it; a request can raise instead of returning a response.  The code
    calls [requests.get] at two places, with URLs of two shapes; each
    place has its endpoint here, typed by the body it decodes. *)
Record Inventory : Type :=
  { clusters_endpoint :
      list string -> string -> result (Response (pydict (list string)));
    clusterdetails_endpoint :
      list string -> string -> result (Response ClusterDetail.t) }.

Definition CLUSTERS_URL (application : string) : string :=
  ("https://INTERNALTOOL/applications/" ++ application ++ "/clusters")%string.

Definition CLUSTERDETAILS_URL (application account clustername : string)
  : string :=
  ("https://INTERNALTOOL/applications/" ++ application ++ "/clusters/"
   ++ account ++ "/" ++ clustername)%string.

(** An element of [servergroups]: the list [[region, group, instances]]. *)
Definition entry : Type := string * string * list string.
Definition item0 (x : entry) : string := fst (fst x).
Definition item1 (x : entry) : string := snd (fst x).
Definition item2 (x : entry) : list string := snd x.

(** The body of [instances_by_region] after [groups] has been read:
    [sorted], [groupby], and the loop that fills [by_region]. *)
Definition regroup (groups : list entry) : result (pydict (list string)) :=
  let sortedgroups := sorted item0 groups in
  rfold (fun by_region (kv : string * list entry) =>
           let (key, value) := kv in
           match nth_error value 0 with
           | Some first => Ok (dict_set key (item2 first) by_region)
           | None => Raise IndexError
           end)
        (groupby item1 sortedgroups) [].

Module App.

Record t : Type :=
  { name : string;
    account : Account.t;
    __clusternames : option (list string);
    __clusterdetails : option (pydict ClusterDetail.t);
    __servergroups : option (list entry);
    __instances_by_region : option (pydict (list string)) }.

(** [App(name, account)]: no request is made. *)
Definition __init__ (name : string) (account : Account.t) : t :=
  {| name := name;
     account := account;
     __clusternames := None;
     __clusterdetails := None;
     __servergroups := None;
     __instances_by_region := None |}.

(** [__str__]: ["An App named \"{}\".".format(name=self.name)], a template
    with one automatic field, formatted with one keyword argument. *)
Definition __str__ (self : t) : result string :=
  str_format
    [Text ("An App named " ++ Account.dquote)%string; Auto;
     Text (Account.dquote ++ ".")%string]
    [] [("name", name self)] 0.

(** The instance and the URLs requested so far, oldest first. *)
Record state : Type := { self : t; sent : list string }.

(** [self.__clusternames = v] and the three other attribute writes. *)
Definition with___clusternames (v : list string) (a : t) : t :=
  {| name := name a; account := account a;
     __clusternames := Some v;
     __clusterdetails := __clusterdetails a;
     __servergroups := __servergroups a;
     __instances_by_region := __instances_by_region a |}.

Definition with___clusterdetails (v : pydict ClusterDetail.t) (a : t) : t :=
  {| name := name a; account := account a;
     __clusternames := __clusternames a;
     __clusterdetails := Some v;
     __servergroups := __servergroups a;
     __instances_by_region := __instances_by_region a |}.

Definition with___servergroups (v : list entry) (a : t) : t :=
  {| name := name a; account := account a;
     __clusternames := __clusternames a;
     __clusterdetails := __clusterdetails a;
     __servergroups := Some v;
     __instances_by_region := __instances_by_region a |}.

Definition with___instances_by_region (v : pydict (list string)) (a : t) : t :=
  {| name := name a; account := account a;
     __clusternames := __clusternames a;
     __clusterdetails := __clusterdetails a;
     __servergroups := __servergroups a;
     __instances_by_region := Some v |}.

(** Run an attribute write on the instance of the state. *)
Definition setattr (write : t -> t) : M state unit :=
  fun st => (Ok tt, {| self := write (self st); sent := sent st |}).

Section Methods.
Variable inventory : Inventory.

(** [requests.get(url)] against one of the two endpoints. *)
Definition requests_get {B}
  (endpoint : list string -> string -> result (Response B)) (url : string)
  : M state (Response B) :=
  fun st => (endpoint (sent st) url,
             {| self := self st; sent := sent st ++ [url] |}).

(** [@property clusternames]. *)
Definition clusternames : M state (list string) :=
  st <- get ;;
  match __clusternames (self st) with
  | None =>
      result <- requests_get (clusters_endpoint inventory)
                  (CLUSTERS_URL (name (self st))) ;;
      body <- lift (json result) ;;
      names <- lift (getitem body (Account.name (account (self st)))) ;;
      setattr (with___clusternames names) ;;
      ret names
  | Some names => ret names
  end.

(** [@property clusterdetails]. *)
Definition clusterdetails : M state (pydict ClusterDetail.t) :=
  st <- get ;;
  match __clusterdetails (self st) with
  | None =>
      names <- clusternames ;;
      details <-
        foldM (fun details clustername =>
                 result <- requests_get (clusterdetails_endpoint inventory)
                             (CLUSTERDETAILS_URL (name (self st))
                                (Account.name (account (self st)))
                                clustername) ;;
                 body <- lift (json result) ;;
                 ret (dict_set clustername body details))
              names [] ;;
      setattr (with___clusterdetails details) ;;
      ret details
  | Some details => ret details
  end.

(** The body of the inner loop of [servergroups]: one [element] of
    [serverGroups] becomes one entry. *)
Definition extract (element : ServerGroup.t) : result entry :=
  rbind (getfield "name" (ServerGroup.name element)) (fun group =>
  rbind (getfield "region" (ServerGroup.region element)) (fun region =>
  rbind (getfield "instances" (ServerGroup.instances element)) (fun insts =>
  rbind (rmap (fun instance =>
                 getfield "instanceId" (Instance.instanceId instance)) insts)
        (fun instances =>
  Ok (region, group, instances))))).

(** [@property servergroups]. *)
Definition servergroups : M state (list entry) :=
  st <- get ;;
  match __servergroups (self st) with
  | None =>
      keys <- (details <- clusterdetails ;; ret (dict_keys details)) ;;
      groups <-
        foldM (fun groups cluster =>
                 details <- clusterdetails ;;
                 detail <- lift (getitem details cluster) ;;
                 elements <- lift (getfield "serverGroups"
                                     (ClusterDetail.serverGroups detail)) ;;
                 foldM (fun groups element =>
                          x <- lift (extract element) ;;
                          ret (groups ++ [x]))
                       elements groups)
              keys [] ;;
      setattr (with___servergroups groups) ;;
      ret groups
  | Some groups => ret groups
  end.

(** [@property instances_by_region]. *)
Definition instances_by_region : M state (pydict (list string)) :=
  st <- get ;;
  match __instances_by_region (self st) with
  | None =>
      groups <- servergroups ;;
      by_region <- lift (regroup groups) ;;
      setattr (with___instances_by_region by_region) ;;
      ret by_region
  | Some by_region => ret by_region
  end.

End Methods.

(** The four derived properties, and what each returns. *)
Inductive property : Type :=
| Clusternames
| Clusterdetails
| Servergroups
| Instances_by_region.

Inductive value : Type :=
| Names (v : list string)
| Details (v : pydict ClusterDetail.t)
| Groups (v : list entry)
| By_region (v : pydict (list string)).

(** Read property [p] of the instance. *)
Definition access (inventory : Inventory) (p : property) : M state value :=
  match p with
  | Clusternames => v <- clusternames inventory ;; ret (Names v)
  | Clusterdetails => v <- clusterdetails inventory ;; ret (Details v)
  | Servergroups => v <- servergroups inventory ;; ret (Groups v)
  | Instances_by_region =>
      v <- instances_by_region inventory ;; ret (By_region v)
  end.

(** The cache attribute behind property [p]. *)
Definition slot (p : property) (a : t) : option value :=
  match p with
  | Clusternames => option_map Names (__clusternames a)
  | Clusterdetails => option_map Details (__clusterdetails a)
  | Servergroups => option_map Groups (__servergroups a)
  | Instances_by_region => option_map By_region (__instances_by_region a)
  end.

(** Position of a property in the pipeline. *)
Definition rank (p : property) : nat :=
  match p with
  | Clusternames => 1
  | Clusterdetails => 2
  | Servergroups => 3
  | Instances_by_region => 4
  end.

End App.

(* ================================================================= *)
(** ** Vocabulary of the statements *)

(** [s] is [l] sorted by [key] with a stable sort: the same elements, keys
    in ascending order, and elements with the same key in the order they
    have in [l]. *)
Definition stable_sort_of {A} (key : A -> string) (l s : list A) : Prop :=
  Permutation l s /\
  Sorted (fun x y => (key x <=? key y)%string = true) s /\
  forall k, filter (fun x => (key x =? k)%string) s
            = filter (fun x => (key x =? k)%string) l.

(** [runs] are the maximal runs of [s] for [key]: they concatenate to [s],
    each is non-empty and carries the key of all its elements, and two
    consecutive runs have different keys. *)
Definition is_runs {A} (key : A -> string) (s : list A)
  (runs : list (string * list A)) : Prop :=
  concat (map snd runs) = s /\
  Forall (fun kv => snd kv <> [] /\
                    Forall (fun y => key y = fst kv) (snd kv)) runs /\
  forall R1 k1 r1 k2 r2 R2,
    runs = R1 ++ (k1, r1) :: (k2, r2) :: R2 -> k1 <> k2.

(** The regrouping in the words of the specification: every group name is
    mapped to the instance list of its first run, and a later run of a
    name that is already present contributes nothing. *)
Definition regroup_first_run (groups : list entry) : pydict (list string) :=
  fold_left
    (fun by_region (kv : string * list entry) =>
       match dict_get (fst kv) by_region, snd kv with
       | None, first :: _ => dict_set (fst kv) (item2 first) by_region
       | _, _ => by_region
       end)
    (groupby item1 (sorted item0 groups)) [].

(** The state an instance is in after the properties [ps] have been read
    one after the other, whatever each read returned or raised. *)
Definition after_reads (inventory : Inventory) (ps : list App.property)
  (st : App.state) : App.state :=
  fold_left (fun st p => snd (App.access inventory p st)) ps st.

(** A freshly constructed instance, with the requests that other code has
    sent before. *)
Definition fresh (name : string) (account : Account.t) (sent : list string)
  : App.state :=
  {| App.self := App.__init__ name account; App.sent := sent |}.

(** The error of the [assert] in [Account.number]. *)
Definition unsupported : exn :=
  AssertionError "This currently only works in the 'prod' or 'test' accounts.".

(** The input of the specification's example, and one on which the runs of
    a group name stay apart after the sort. *)
Definition collapse_example : list entry :=
  [("us-east", "g1", ["i-1"]); ("us-west", "g2", ["i-2"]);
   ("us-east", "g1", ["i-3"])].

Definition apart_example : list entry :=
  [("a", "g1", ["i-1"]); ("b", "g2", ["i-2"]); ("c", "g1", ["i-3"])].

(** The state after the listing request has been sent. *)
Definition listed (st : App.state) : App.state :=
  {| App.self := App.self st;
     App.sent := App.sent st ++ [CLUSTERS_URL (App.name (App.self st))] |}.

(** The loop of [clusterdetails]. *)
Definition fetch (inventory : Inventory) (application account : string)
  : list string -> pydict ClusterDetail.t -> M App.state (pydict ClusterDetail.t) :=
  foldM (fun details clustername =>
           result <- App.requests_get (clusterdetails_endpoint inventory)
                       (CLUSTERDETAILS_URL application account clustername) ;;
           body <- lift (json result) ;;
           ret (dict_set clustername body details)).

(** The loops of [servergroups] on a given dict of cluster details. *)
Definition groups_of (details : pydict ClusterDetail.t) : result (list entry) :=
  rfold (fun groups cluster =>
           rbind (getitem details cluster) (fun detail =>
           rbind (getfield "serverGroups" (ClusterDetail.serverGroups detail))
                 (fun elements =>
           rfold (fun groups element =>
                    rbind (App.extract element) (fun x => Ok (groups ++ [x])))
                 elements groups)))
        (dict_keys details) [].

(** [st'] comes from [st] by reading a property of rank [j] at most: the
    instance keeps its name and account, requests are only added, the
    cache attributes of higher rank are as they were, and an attribute
    that was set keeps its value. *)
Definition grows (j : nat) (st st' : App.state) : Prop :=
  App.name (App.self st') = App.name (App.self st) /\
  App.account (App.self st') = App.account (App.self st) /\
  (exists more, App.sent st' = App.sent st ++ more) /\
  (forall q, j < App.rank q ->
             App.slot q (App.self st') = App.slot q (App.self st)) /\
  (forall q w, App.slot q (App.self st) = Some w ->
               App.slot q (App.self st') = Some w).

(** *** The operation that fails, and its error

    A read can fail at three places: at the listing request of
    [clusternames], at one of the detail requests of [clusterdetails], at a
    subscript of [servergroups].  The predicates below name the operation
    that fails first and the error that this operation raises. *)

(** The listing request, sent after the requests [h], fails with [e]:
    [requests.get] on the listing URL raises [e]; or it answers and
    decoding the answer raises [e]; or the decoded body has no entry for
    the account, and [e] is the [KeyError] of the account's name. *)
Definition listing_fails (inventory : Inventory)
  (application account : string) (h : list string) (e : exn) : Prop :=
  clusters_endpoint inventory h (CLUSTERS_URL application) = Raise e \/
  (exists response,
      clusters_endpoint inventory h (CLUSTERS_URL application) = Ok response /\
      json response = Raise e) \/
  (exists response body,
      clusters_endpoint inventory h (CLUSTERS_URL application) = Ok response /\
      json response = Ok body /\
      dict_get account body = None /\
      e = KeyError account).

(** The loop over [names], started after the requests [h], fails with [e]
    at the name [c]: the requests for the names before [c] are answered and
    decoded, and the request for [c], sent after them, raises [e], or
    decoding its answer raises [e]. *)
Definition fetch_fails (inventory : Inventory)
  (application account : string) (h : list string) (names : list string)
  (e : exn) : Prop :=
  exists before c after,
    names = before ++ c :: after /\
    (forall b1 b b2,
        before = b1 ++ b :: b2 ->
        exists response body,
          clusterdetails_endpoint inventory
            (h ++ map (CLUSTERDETAILS_URL application account) b1)
            (CLUSTERDETAILS_URL application account b) = Ok response /\
          json response = Ok body) /\
    (clusterdetails_endpoint inventory
       (h ++ map (CLUSTERDETAILS_URL application account) before)
       (CLUSTERDETAILS_URL application account c) = Raise e \/
     exists response,
       clusterdetails_endpoint inventory
         (h ++ map (CLUSTERDETAILS_URL application account) before)
         (CLUSTERDETAILS_URL application account c) = Ok response /\
       json response = Raise e).

(** Payloads on which no subscript of [servergroups] fails. *)
Definition instance_ok (instance : Instance.t) : Prop :=
  Instance.instanceId instance <> None.

Definition element_ok (element : ServerGroup.t) : Prop :=
  ServerGroup.name element <> None /\
  ServerGroup.region element <> None /\
  exists insts, ServerGroup.instances element = Some insts /\
                Forall instance_ok insts.

Definition detail_ok (detail : ClusterDetail.t) : Prop :=
  exists elements, ClusterDetail.serverGroups detail = Some elements /\
                   Forall element_ok elements.

(** The first subscript that fails on [element], in the order in which the
    code evaluates them: ['name'], ['region'], ['instances'], then
    ['instanceId'] on the first instance that lacks it; [e] is the
    [KeyError] of that key. *)
Definition element_fails (element : ServerGroup.t) (e : exn) : Prop :=
  (ServerGroup.name element = None /\ e = KeyError "name") \/
  (ServerGroup.name element <> None /\
   ServerGroup.region element = None /\ e = KeyError "region") \/
  (ServerGroup.name element <> None /\
   ServerGroup.region element <> None /\
   ServerGroup.instances element = None /\ e = KeyError "instances") \/
  (ServerGroup.name element <> None /\
   ServerGroup.region element <> None /\
   exists before instance after,
     ServerGroup.instances element = Some (before ++ instance :: after) /\
     Forall instance_ok before /\
     Instance.instanceId instance = None /\
     e = KeyError "instanceId").

(** The first subscript that fails on the payload of one cluster. *)
Definition detail_fails (detail : ClusterDetail.t) (e : exn) : Prop :=
  (ClusterDetail.serverGroups detail = None /\ e = KeyError "serverGroups") \/
  (exists before element after,
      ClusterDetail.serverGroups detail = Some (before ++ element :: after) /\
      Forall element_ok before /\
      element_fails element e).

(** The loops of [servergroups] over [details] fail with [e] at the
    cluster [cluster]: the payloads of the clusters before it are read
    without error, and [e] is the error of the first subscript that fails
    on the payload of [cluster]. *)
Definition extraction_fails (details : pydict ClusterDetail.t) (e : exn)
  : Prop :=
  exists before cluster after detail,
    dict_keys details = before ++ cluster :: after /\
    (forall k, In k before ->
               exists d, dict_get k details = Some d /\ detail_ok d) /\
    dict_get cluster details = Some detail /\
    detail_fails detail e.

(** A read of [clusternames] in state [st] raises [e] because the
    attribute is unset and the listing request fails with [e]. *)
Definition names_raise (inventory : Inventory) (st : App.state) (e : exn)
  : Prop :=
  App.__clusternames (App.self st) = None /\
  listing_fails inventory (App.name (App.self st))
    (Account.name (App.account (App.self st))) (App.sent st) e.

(** A read of [clusterdetails] raises [e]: the attribute is unset, and
    either the read of [clusternames] raises [e], or it returns [names]
    and the loop over [names] fails with [e]. *)
Definition details_raise (inventory : Inventory) (st : App.state) (e : exn)
  : Prop :=
  App.__clusterdetails (App.self st) = None /\
  (names_raise inventory st e \/
   exists names st1,
     App.clusternames inventory st = (Ok names, st1) /\
     fetch_fails inventory (App.name (App.self st))
       (Account.name (App.account (App.self st))) (App.sent st1) names e).

(** A read of [servergroups] raises [e]: the attribute is unset, and
    either the read of [clusterdetails] raises [e], or it returns
    [details] and the extraction from [details] fails with [e]. *)
Definition groups_raise (inventory : Inventory) (st : App.state) (e : exn)
  : Prop :=
  App.__servergroups (App.self st) = None /\
  (details_raise inventory st e \/
   exists details st1,
     App.clusterdetails inventory st = (Ok details, st1) /\
     extraction_fails details e).


(** Every cached value is the whole result of its stage on the cached
    value of the stage before: the details have exactly the cluster names
    as keys, the groups are all the groups of the details, the mapping is
    the regrouping of the groups. *)
Definition complete (a : App.t) : Prop :=
  (forall details, App.__clusterdetails a = Some details ->
     exists names, App.__clusternames a = Some names /\
                   forall k, In k (dict_keys details) <-> In k names) /\
  (forall groups, App.__servergroups a = Some groups ->
     exists details, App.__clusterdetails a = Some details /\
                     groups_of details = Ok groups) /\
  (forall by_region, App.__instances_by_region a = Some by_region ->
     exists groups, App.__servergroups a = Some groups /\
                    regroup groups = Ok by_region).

(** *** Inventories used as concrete inputs *)

Definition test_account : Account.t := {| Account.name := "test" |}.

(** The end-to-end scenario of the specification: application "checkout"
    has one cluster in account "test", with one server group of two
    instances. *)
Definition checkout_detail : ClusterDetail.t :=
  {| ClusterDetail.serverGroups :=
       Some [ {| ServerGroup.name := Some "checkout-test-v001";
                 ServerGroup.region := Some "us-east-1";
                 ServerGroup.instances :=
                   Some [ {| Instance.instanceId := Some "i-aaa" |};
                          {| Instance.instanceId := Some "i-bbb" |} ] |} ] |}.

Definition checkout_inventory : Inventory :=
  {| clusters_endpoint := fun _ _ =>
       Ok {| json := Ok [("test", ["checkout-test-v001"])] |};
     clusterdetails_endpoint := fun _ _ =>
       Ok {| json := Ok checkout_detail |} |}.

(** An inventory that lists one cluster and then refuses every request
    for cluster details. *)
Definition refusing_inventory : Inventory :=
  {| clusters_endpoint := fun _ _ =>
       Ok {| json := Ok [("test", ["checkout-test-v001"])] |};
     clusterdetails_endpoint := fun _ _ =>
       Raise (RequestException "connection refused") |}.

(** The entries of one cluster: its [serverGroups], each extracted. *)
Definition detail_entries (detail : ClusterDetail.t) : result (list entry) :=
  rbind (getfield "serverGroups" (ClusterDetail.serverGroups detail))
        (rmap App.extract).

(** The keys whose absence [servergroups] can meet. *)
Definition payload_keys : list string :=
  ["serverGroups"; "name"; "region"; "instances"; "instanceId"].

(** A frame that a generator of [gen_nums] can be in. *)
Definition proper (f : utils.frame) : Prop :=
  match f with
  | utils.Suspended n => In n [1; 3; 5; 7; 9]%Z
  | _ => True
  end.

(** An inventory whose answer to a URL does not depend on the requests
    sent before. *)
Definition fixed (inventory : Inventory) : Prop :=
  (forall h h' url,
      clusters_endpoint inventory h url = clusters_endpoint inventory h' url) /\
  (forall h h' url,
      clusterdetails_endpoint inventory h url
      = clusterdetails_endpoint inventory h' url).

(** *** The pipeline without the cache

    What the four stages compute from an inventory that is asked each URL
    with no request before it: the listing and the lookup of the account,
    one fetch for each name, the extraction, the regrouping. *)

Definition pure_fetch (inventory : Inventory) (application account : string)
  : list string -> pydict ClusterDetail.t -> result (pydict ClusterDetail.t) :=
  rfold (fun details clustername =>
           rbind (clusterdetails_endpoint inventory []
                    (CLUSTERDETAILS_URL application account clustername))
                 (fun result =>
           rbind (json result) (fun body =>
           Ok (dict_set clustername body details)))).

Definition pipeline_names (inventory : Inventory) (name : string)
  (account : Account.t) : result (list string) :=
  rbind (clusters_endpoint inventory [] (CLUSTERS_URL name)) (fun result =>
  rbind (json result) (fun body =>
  getitem body (Account.name account))).

Definition pipeline_details (inventory : Inventory) (name : string)
  (account : Account.t) : result (pydict ClusterDetail.t) :=
  rbind (pipeline_names inventory name account) (fun names =>
  pure_fetch inventory name (Account.name account) names []).

Definition pipeline_groups (inventory : Inventory) (name : string)
  (account : Account.t) : result (list entry) :=
  rbind (pipeline_details inventory name account) groups_of.

Definition pipeline_by_region (inventory : Inventory) (name : string)
  (account : Account.t) : result (pydict (list string)) :=
  rbind (pipeline_groups inventory name account) regroup.

Definition pipeline (inventory : Inventory) (name : string)
  (account : Account.t) (p : App.property) : result App.value :=
  match p with
  | App.Clusternames =>
      rbind (pipeline_names inventory name account)
            (fun v => Ok (App.Names v))
  | App.Clusterdetails =>
      rbind (pipeline_details inventory name account)
            (fun v => Ok (App.Details v))
  | App.Servergroups =>
      rbind (pipeline_groups inventory name account)
            (fun v => Ok (App.Groups v))
  | App.Instances_by_region =>
      rbind (pipeline_by_region inventory name account)
            (fun v => Ok (App.By_region v))
  end.

(** The instance is the one of [name] and [account], and every cached
    value is the value of its stage in the pipeline without the cache. *)
Definition canonical (inventory : Inventory) (name : string)
  (account : Account.t) (st : App.state) : Prop :=
  App.name (App.self st) = name /\
  App.account (App.self st) = account /\
  (forall v, App.__clusternames (App.self st) = Some v ->
             pipeline_names inventory name account = Ok v) /\
  (forall v, App.__clusterdetails (App.self st) = Some v ->
             pipeline_details inventory name account = Ok v) /\
  (forall v, App.__servergroups (App.self st) = Some v ->
             pipeline_groups inventory name account = Ok v) /\
  (forall v, App.__instances_by_region (App.self st) = Some v ->
             pipeline_by_region inventory name account = Ok v).

(* ================================================================= *)
(** ** Facts about the runtime *)

Lemma dict_get_set_same {V} (k : string) (v : V) (d : pydict V) :
  dict_get k (dict_set k v d) = Some v.
Proof.
  induction d as [|[k' v'] d IH]; simpl.
  - now rewrite String.eqb_refl.
  - destruct (String.eqb_spec k' k) as [->|Hne]; simpl.
    + now rewrite String.eqb_refl.
    + destruct (String.eqb_spec k' k); [contradiction|exact IH].
Qed.

Lemma dict_get_set_other {V} (k k' : string) (v : V) (d : pydict V) :
  k <> k' -> dict_get k' (dict_set k v d) = dict_get k' d.
Proof.
  intros Hne.
  induction d as [|[k0 v0] d IH]; simpl.
  - destruct (String.eqb_spec k k'); [contradiction|reflexivity].
  - destruct (String.eqb_spec k0 k) as [->|Hk0]; simpl.
    + destruct (String.eqb_spec k k'); [contradiction|reflexivity].
    + now rewrite IH.
Qed.

Lemma dict_keys_set {V} (k : string) (v : V) (d : pydict V) (k' : string) :
  In k' (dict_keys (dict_set k v d)) <-> k' = k \/ In k' (dict_keys d).
Proof.
  unfold dict_keys.
  induction d as [|[k0 v0] d IH]; simpl.
  - intuition.
  - destruct (String.eqb_spec k0 k) as [->|Hk0]; simpl.
    + intuition.
    + rewrite IH. intuition.
Qed.

Lemma dict_keys_set_NoDup {V} (k : string) (v : V) (d : pydict V) :
  NoDup (dict_keys d) -> NoDup (dict_keys (dict_set k v d)).
Proof.
  unfold dict_keys.
  induction d as [|[k0 v0] d IH]; simpl; intros Hd.
  - constructor; [intros []|constructor].
  - inversion Hd as [|? ? Hnot Hd']; subst.
    destruct (String.eqb_spec k0 k) as [->|Hk0]; simpl.
    + now constructor.
    + constructor; [|now apply IH].
      intros Hin. apply (dict_keys_set k v d k0) in Hin.
      destruct Hin as [->|Hin]; [now apply Hk0|now apply Hnot].
Qed.

Lemma dict_get_In_keys {V} (k : string) (d : pydict V) :
  In k (dict_keys d) <-> exists v, dict_get k d = Some v.
Proof.
  unfold dict_keys.
  induction d as [|[k0 v0] d IH]; simpl.
  - split; [intros []|intros [v Hv]; discriminate].
  - destruct (String.eqb_spec k0 k) as [->|Hk0].
    + split; [intros _; now exists v0|now left].
    + rewrite <- IH. intuition.
Qed.

(** *** [sorted] is a stable sort *)

Section SortedFacts.
Variable A : Type.
Variable key : A -> string.

Lemma leb_refl (s : string) : (s <=? s)%string = true.
Proof. now destruct (String.leb_total s s). Qed.

Lemma insert_by_perm (x : A) (l : list A) :
  Permutation (x :: l) (insert_by key x l).
Proof.
  induction l as [|y l IH]; simpl; [reflexivity|].
  destruct (key x <=? key y)%string; [reflexivity|].
  rewrite perm_swap. now constructor.
Qed.

Lemma insert_by_sorted (x : A) (l : list A) :
  Sorted (fun a b => (key a <=? key b)%string = true) l ->
  Sorted (fun a b => (key a <=? key b)%string = true) (insert_by key x l).
Proof.
  induction l as [|y l IH]; simpl; intros Hs.
  - repeat constructor.
  - destruct (key x <=? key y)%string eqn:Hxy.
    + constructor; [assumption|now constructor].
    + inversion Hs as [|? ? Hs' Hhd]; subst.
      constructor; [now apply IH|].
      assert (Hyx : (key y <=? key x)%string = true).
      { destruct (String.leb_total (key x) (key y)); congruence. }
      destruct l as [|z l]; simpl.
      * now constructor.
      * destruct (key x <=? key z)%string; constructor;
          [assumption|now inversion Hhd].
Qed.

Lemma insert_by_filter (x : A) (l : list A) (k : string) :
  filter (fun a => (key a =? k)%string) (insert_by key x l)
  = filter (fun a => (key a =? k)%string) (x :: l).
Proof.
  induction l as [|y l IH]; [reflexivity|].
  cbn [insert_by].
  destruct (key x <=? key y)%string eqn:Hxy; [reflexivity|].
  assert (Hne : key y <> key x).
  { intros E. rewrite E, leb_refl in Hxy. discriminate. }
  cbn [filter] in *. rewrite IH.
  destruct (String.eqb_spec (key y) k) as [Hy|Hy];
    destruct (String.eqb_spec (key x) k) as [Hx|Hx];
    try reflexivity; congruence.
Qed.

Lemma sorted_stable (l : list A) : stable_sort_of key l (sorted key l).
Proof.
  induction l as [|x l (Hp & Hs & Hf)].
  - repeat split; constructor.
  - repeat split; cbn [sorted].
    + rewrite <- insert_by_perm. now constructor.
    + now apply insert_by_sorted.
    + intros k. rewrite insert_by_filter. cbn [filter]. now rewrite Hf.
Qed.

(** *** [groupby] yields the maximal runs *)

Lemma groupby_concat (l : list A) : concat (map snd (groupby key l)) = l.
Proof.
  induction l as [|x l IH]; [reflexivity|].
  cbn [groupby].
  destruct (groupby key l) as [|[k run] runs]; simpl in *.
  - now subst.
  - destruct (key x =? k)%string; simpl; now rewrite IH.
Qed.

Lemma groupby_runs (l : list A) :
  Forall (fun kv => snd kv <> [] /\ Forall (fun y => key y = fst kv) (snd kv))
         (groupby key l).
Proof.
  induction l as [|x l IH]; [constructor|].
  cbn [groupby].
  destruct (groupby key l) as [|[k run] runs].
  - repeat constructor. discriminate.
  - inversion IH as [|? ? [Hne Hall] Hrest]; subst; simpl in *.
    destruct (String.eqb_spec (key x) k) as [Hk|Hk].
    + constructor; [|assumption]. simpl. split; [discriminate|].
      constructor; [reflexivity|]. now rewrite Hk.
    + constructor; [|now constructor].
      simpl. split; [discriminate|now repeat constructor].
Qed.

Lemma groupby_adjacent (l : list A) R1 k1 r1 k2 r2 R2 :
  groupby key l = R1 ++ (k1, r1) :: (k2, r2) :: R2 -> k1 <> k2.
Proof.
  revert R1 k1 r1.
  induction l as [|x l IH]; intros R1 k1 r1; cbn [groupby].
  - destruct R1; discriminate.
  - destruct (groupby key l) as [|[k run] runs] eqn:Hg.
    + destruct R1 as [|? [|? ?]]; discriminate.
    + destruct (String.eqb_spec (key x) k) as [Hk|Hk]; intros E.
      * destruct R1 as [|kv R1]; simpl in E.
        -- injection E as E1 E2 E3. subst k1 runs. rewrite Hk.
           apply (IH [] k run). reflexivity.
        -- injection E as E1 E2. subst runs.
           apply (IH ((k, run) :: R1) k1 r1). reflexivity.
      * destruct R1 as [|kv R1]; simpl in E.
        -- injection E as E1 E2 E3 E4 E5. congruence.
        -- injection E as E1 E2. apply (IH R1 k1 r1). assumption.
Qed.

Lemma groupby_is_runs (l : list A) : is_runs key l (groupby key l).
Proof.
  split; [apply groupby_concat|].
  split; [apply groupby_runs|].
  intros; eapply groupby_adjacent; eauto.
Qed.

End SortedFacts.

(** *** The loop of [instances_by_region] *)

Lemma regroup_loop (R : list (string * list entry)) :
  Forall (fun kv => snd kv <> []) R ->
  forall d0 : pydict (list string),
  exists d,
    rfold (fun by_region (kv : string * list entry) =>
             let (key, value) := kv in
             match nth_error value 0 with
             | Some first => Ok (dict_set key (item2 first) by_region)
             | None => Raise IndexError
             end) R d0 = Ok d /\
    forall g v,
      dict_get g d = Some v <->
      (exists R1 x same R2,
          R = R1 ++ (g, x :: same) :: R2 /\ item2 x = v /\
          Forall (fun kv => fst kv <> g) R2)
      \/ (Forall (fun kv => fst kv <> g) R /\ dict_get g d0 = Some v).
Proof.
  induction 1 as [|[k value] R Hne HR IH]; intros d0; cbn [rfold].
  - exists d0. split; [reflexivity|].
    intros g v; split.
    + intros Hg; right; split; [constructor|assumption].
    + intros [(R1 & x & same & R2 & E & _)|[_ Hg]]; [|assumption].
      destruct R1; discriminate.
  - destruct value as [|x0 same0]; [now contradiction Hne|].
    cbn [nth_error rbind].
    destruct (IH (dict_set k (item2 x0) d0)) as (d & Hd & Hiff).
    exists d. split; [assumption|].
    intros g v. rewrite Hiff. clear Hiff. split.
    + intros [(R1 & x & same & R2 & E & Hv & Hno)|[Hno Hg]].
      * left. exists ((k, x0 :: same0) :: R1), x, same, R2.
        subst R. now repeat split.
      * destruct (String.eqb_spec k g) as [->|Hk].
        -- rewrite dict_get_set_same in Hg. injection Hg as Hv.
           left. exists [], x0, same0, R. now repeat split.
        -- rewrite dict_get_set_other in Hg by assumption.
           right. split; [now constructor|assumption].
    + intros [(R1 & x & same & R2 & E & Hv & Hno)|[Hno Hg]].
      * destruct R1 as [|kv R1]; simpl in E.
        -- injection E as Ek Ex Es ER. subst.
           right. split; [assumption|]. apply dict_get_set_same.
        -- injection E as Ekv ER.
           left. exists R1, x, same, R2. now repeat split.
      * inversion Hno as [|? ? Hk Hno']; subst; simpl in Hk.
        right. split; [assumption|].
        now rewrite dict_get_set_other.
Qed.


(* ================================================================= *)
(** ** Stage 4: the regrouping *)


(** C1, as amended: [regroup] succeeds on every stage-3 sequence; it sorts
    the tuples by region with a stable sort, cuts the sorted sequence into
    its maximal runs of equal group name, and maps a group name [g] to [v]
    exactly when [v] is the instance list of the first tuple of the LAST
    run of [g]; the earlier runs of [g] do not show in the result. *)
Theorem C1_regroup_last_run (groups : list entry) :
  stable_sort_of item0 groups (sorted item0 groups) /\
  is_runs item1 (sorted item0 groups) (groupby item1 (sorted item0 groups)) /\
  exists d,
    regroup groups = Ok d /\
    forall g v,
      dict_get g d = Some v <->
      exists R1 x same R2,
        groupby item1 (sorted item0 groups) = R1 ++ (g, x :: same) :: R2 /\
        item2 x = v /\
        Forall (fun kv => fst kv <> g) R2.
Proof.
  split; [apply sorted_stable|].
  split; [apply groupby_is_runs|].
  unfold regroup.
  destruct (@regroup_loop (groupby item1 (sorted item0 groups)))
    with (d0 := @nil (string * list string)) as (d & Hd & Hiff).
  - eapply Forall_impl; [|apply groupby_runs]. now intros kv [Hne _].
  - exists d. split; [assumption|].
    intros g v. rewrite Hiff. split.
    + intros [H|[_ H]]; [assumption|discriminate].
    + intros H; now left.
Qed.

(** The theorem on [apart_example]: "g1" is mapped to the list of its
    second run. *)
Lemma C1_regroup_last_run_witness :
  exists d, regroup apart_example = Ok d /\
            dict_get "g1" d = Some ["i-3"].
Proof.
  destruct (C1_regroup_last_run apart_example) as (_ & _ & d & Hd & Hiff).
  exists d. split; [exact Hd|].
  apply Hiff.
  exists [("g1", [("a", "g1", ["i-1"])]); ("g2", [("b", "g2", ["i-2"])])],
    ("c", "g1", ["i-3"]), [], [].
  split; [reflexivity|]. split; [reflexivity|constructor].
Defined.

(** C1, as stated, fails: on [apart_example] the two runs of ["g1"] are not
    adjacent after the sort, and the result holds the instance list of the
    second one, not of the first. *)
Lemma C1_first_run_counterexample :
  regroup apart_example = Ok [("g1", ["i-3"]); ("g2", ["i-2"])] /\
  regroup_first_run apart_example = [("g1", ["i-1"]); ("g2", ["i-2"])] /\
  ~ (forall groups : list entry,
        exists d, regroup groups = Ok d /\
                  dict_eq d (regroup_first_run groups)).
Proof.
  split; [reflexivity|]. split; [reflexivity|].
  intros H. destruct (H apart_example) as (d & Hd & Heq).
  vm_compute in Hd. injection Hd as <-.
  specialize (Heq "g1"). vm_compute in Heq. discriminate.
Qed.

(** C2, as amended: on the example of the specification the regrouping
    yields the two-key mapping g1 -> [i-1], g2 -> [i-2]; the list [i-3]
    of the second "g1" tuple is dropped, not merged. *)
Theorem C2_collapse_example :
  sorted item0 collapse_example
  = [("us-east", "g1", ["i-1"]); ("us-east", "g1", ["i-3"]);
     ("us-west", "g2", ["i-2"])] /\
  regroup collapse_example = Ok [("g1", ["i-1"]); ("g2", ["i-2"])] /\
  forall d, regroup collapse_example = Ok d ->
    forall k v, dict_get k d = Some v -> ~ In "i-3" v.
Proof.
  split; [reflexivity|]. split; [reflexivity|].
  intros d Hd.
  change (regroup collapse_example)
    with (Ok [("g1", ["i-1"]); ("g2", ["i-2"])]) in Hd.
  injection Hd as <-.
  intros k v. cbn [dict_get].
  destruct ("g1" =? k)%string; [|destruct ("g2" =? k)%string].
  - intros E; injection E as <-. intros [E|[]]. discriminate.
  - intros E; injection E as <-. intros [E|[]]. discriminate.
  - discriminate.
Qed.

(** The theorem at the key "g1" of the result. *)
Lemma C2_collapse_example_witness :
  ~ In "i-3" ["i-1"].
Proof.
  apply (proj2 (proj2 C2_collapse_example)
           [("g1", ["i-1"]); ("g2", ["i-2"])] eq_refl "g1" ["i-1"]).
  reflexivity.
Defined.

(** C2, as stated, fails: the result is not the one-key mapping
    g1 -> [i-1]; it also has the key "g2". *)
Lemma C2_single_key_counterexample :
  ~ (exists d, regroup collapse_example = Ok d /\
               dict_eq d [("g1", ["i-1"])]).
Proof.
  intros (d & Hd & Heq).
  vm_compute in Hd. injection Hd as <-.
  specialize (Heq "g2"). vm_compute in Heq. discriminate.
Qed.

(* ================================================================= *)
(** ** utils.py: [flatten] and [gen_nums] *)

(** C8: [flatten] returns the inner elements of [deeplist], outer list
    first and inner list second, with nothing dropped, merged or
    reordered; it is a total function, so it has no error result. *)
Theorem C8_flatten_concat :
  (forall (S A : Type) (self : S) (deeplist : list (list A)),
      utils.flatten self deeplist = concat deeplist) /\
  (forall (S A : Type) (self : S),
      utils.flatten self (@nil (list A)) = []) /\
  (forall (S A : Type) (self : S) (sublist : list A) (rest : list (list A)),
      utils.flatten self (sublist :: rest)
      = sublist ++ utils.flatten self rest) /\
  (forall (S : Type) (self : S),
      utils.flatten self [[1; 2]; []; [3]]%Z = [1; 2; 3]%Z /\
      utils.flatten self [[1; 1]; [2]]%Z = [1; 1; 2]%Z).
Proof.
  assert (Hcons : forall (S A : Type) (self : S) (sublist : list A) rest,
             utils.flatten self (sublist :: rest)
             = sublist ++ utils.flatten self rest).
  { intros. unfold utils.flatten. cbn [flat_map]. now rewrite map_id. }
  repeat split; try reflexivity; [|apply Hcons].
  intros S A self deeplist.
  induction deeplist as [|sublist rest IH]; [reflexivity|].
  rewrite Hcons, IH. reflexivity.
Qed.

Lemma consume_unfold (g : nat) (h : utils.heap) :
  utils.consume g h =
  match utils.next g h with
  | (Some v, h') => let (vs, h'') := utils.consume g h' in (v :: vs, h'')
  | (None, h') => ([], h')
  end.
Proof.
  rewrite utils.consume_equation_1.
  destruct (utils.inspect (utils.next g h)) as [[[v|] h'] e];
    cbn; rewrite e; reflexivity.
Qed.

Lemma nth_error_fresh (h : utils.heap) (f : utils.frame) :
  nth_error (h ++ [f]) (List.length h) = Some f.
Proof. rewrite nth_error_app2, Nat.sub_diag by lia. reflexivity. Qed.

Lemma update_fresh (h : utils.heap) (f f' : utils.frame) :
  utils.update (List.length h) f' (h ++ [f]) = h ++ [f'].
Proof. induction h as [|f0 h IH]; simpl; [reflexivity|now rewrite IH]. Qed.

Lemma next_fresh (h : utils.heap) (f : utils.frame) :
  utils.next (List.length h) (h ++ [f])
  = (fst (utils.resume f), h ++ [snd (utils.resume f)]).
Proof.
  unfold utils.next. rewrite nth_error_fresh.
  destruct (utils.resume f) as [v f']. now rewrite update_fresh.
Qed.

Lemma update_other (g g' : nat) (f : utils.frame) (h : utils.heap) :
  g <> g' -> nth_error (utils.update g' f h) g = nth_error h g.
Proof.
  revert g g'; induction h as [|f0 h IH]; intros [|g] [|g'] Hne; simpl;
    try reflexivity; try contradiction.
  apply IH. congruence.
Qed.

(** C9: whatever generators exist already and whatever state they are in,
    a call of [gen_nums] makes a new generator; consuming it to the end
    yields exactly 1, 3, 5, 7, 9 and leaves the other generators as they
    were; and calling [next] on another generator does not move the new
    one. *)
Theorem C9_gen_nums_sequence (h : utils.heap) :
  let g := fst (utils.gen_nums h) in
  let h1 := snd (utils.gen_nums h) in
  utils.consume g h1 = ([1; 3; 5; 7; 9]%Z, h ++ [utils.Finished]) /\
  forall g', g' <> g ->
    nth_error (snd (utils.next g' h1)) g = Some utils.Created.
Proof.
  cbn [utils.gen_nums fst snd]. split.
  - do 6 (rewrite consume_unfold, next_fresh; cbn [utils.resume utils.loop fst snd];
          try change (1 <? 10)%Z with true; cbv iota beta).
    reflexivity.
  - intros g' Hne. unfold utils.next.
    destruct (nth_error (h ++ [utils.Created]) g') as [f|] eqn:Hg'.
    + destruct (utils.resume f) as [v f']. cbn [snd].
      rewrite update_other by congruence. apply nth_error_fresh.
    + apply nth_error_fresh.
Qed.

(** With one generator suspended at 3: the new one is at index 1, and
    [next] on the old one leaves it not started. *)
Lemma C9_gen_nums_sequence_witness :
  nth_error
    (snd (utils.next 0 (snd (utils.gen_nums [utils.Suspended 3])))) 1
  = Some utils.Created.
Proof.
  apply (proj2 (C9_gen_nums_sequence [utils.Suspended 3%Z]) 0).
  discriminate.
Defined.

(* ================================================================= *)
(** ** account.py *)


Lemma number_cases (name : string) :
  (name = "prod" \/ name = "test") \/
  Account.number {| Account.name := name |} = Raise unsupported.
Proof.
  unfold Account.number. cbn [Account.name].
  destruct (String.eqb_spec name "prod"); [now left; left|].
  destruct (String.eqb_spec name "test"); [now left; right|].
  now right.
Qed.

(** C4: [number] returns "1234567890" for the name 'prod' and "0123456789"
    for 'test'; for every other name it fails with the error of the
    [assert] (the specification's UnsupportedAccountError), not with the
    [KeyError] that the lookup in the table would raise for that name: the
    check comes first.  [number] is a function of the instance alone; it
    has no access to the inventory service. *)
Theorem C4_number_resolution (self : Account.t) :
  (Account.name self = "prod" -> Account.number self = Ok "1234567890") /\
  (Account.name self = "test" -> Account.number self = Ok "0123456789") /\
  (Account.name self <> "prod" -> Account.name self <> "test" ->
   Account.number self = Raise unsupported /\
   getitem Account.accountnumber (Account.name self)
   = Raise (KeyError (Account.name self))).
Proof.
  unfold Account.number, getitem, Account.accountnumber.
  repeat split.
  - intros ->. reflexivity.
  - intros ->. reflexivity.
  - destruct (String.eqb_spec (Account.name self) "prod"); [contradiction|].
    destruct (String.eqb_spec (Account.name self) "test"); [contradiction|].
    reflexivity.
  - cbn [dict_get].
    destruct (String.eqb_spec "prod" (Account.name self)); [congruence|].
    destruct (String.eqb_spec "test" (Account.name self)); [congruence|].
    reflexivity.
Qed.

(** The three cases, at the names "prod", "test" and "dev". *)
Lemma C4_number_resolution_witness :
  Account.number {| Account.name := "prod" |} = Ok "1234567890" /\
  Account.number {| Account.name := "test" |} = Ok "0123456789" /\
  Account.number {| Account.name := "dev" |} = Raise unsupported.
Proof.
  split; [|split].
  - apply (proj1 (C4_number_resolution {| Account.name := "prod" |})).
    reflexivity.
  - apply (proj1 (proj2 (C4_number_resolution {| Account.name := "test" |}))).
    reflexivity.
  - apply (proj2 (proj2 (C4_number_resolution {| Account.name := "dev" |})));
      discriminate.
Defined.

(** C10: [Account(name)] with a name other than 'prod' and 'test' raises
    the error of [number] from inside the constructor, whether or not the
    logger emits DEBUG records, and emits nothing; and whenever the
    constructor returns an instance, its name is the given one and is
    'prod' or 'test'. *)
Theorem C10_constructor_rejects (name : string) (l : Account.logger) :
  (name <> "prod" -> name <> "test" ->
   Account.number {| Account.name := name |} = Raise unsupported /\
   Account.__init__ name l = (Raise unsupported, l)) /\
  (forall self l', Account.__init__ name l = (Ok self, l') ->
     Account.name self = name /\ (name = "prod" \/ name = "test")).
Proof.
  unfold Account.__init__, bind, lift.
  split.
  - intros Hp Ht.
    destruct (number_cases name) as [H|H]; [|now rewrite H].
    destruct H as [H|H]; congruence.
  - intros self l'.
    destruct (number_cases name) as [[H|H]|H].
    + subst name. cbn. intros E; injection E as <- _. auto.
    + subst name. cbn. intros E; injection E as <- _. auto.
    + rewrite H. discriminate.
Qed.

(** [Account("dev")] with DEBUG records switched off. *)
Lemma C10_constructor_rejects_witness :
  Account.number {| Account.name := "dev" |} = Raise unsupported /\
  Account.__init__ "dev"
    {| Account.debug_enabled := false; Account.records := [] |}
  = (Raise unsupported,
     {| Account.debug_enabled := false; Account.records := [] |}).
Proof.
  apply (proj1 (C10_constructor_rejects "dev"
                  {| Account.debug_enabled := false;
                     Account.records := [] |}));
    discriminate.
Defined.

(* ================================================================= *)
(** ** app.py: the four properties, one by one *)

Section Pipeline.
Variable inventory : Inventory.

Local Abbreviation clusternames := (App.clusternames inventory).
Local Abbreviation clusterdetails := (App.clusterdetails inventory).
Local Abbreviation servergroups := (App.servergroups inventory).
Local Abbreviation instances_by_region := (App.instances_by_region inventory).


Lemma clusternames_eq (st : App.state) :
  clusternames st =
  match App.__clusternames (App.self st) with
  | Some names => (Ok names, st)
  | None =>
      match clusters_endpoint inventory (App.sent st)
              (CLUSTERS_URL (App.name (App.self st))) with
      | Raise e => (Raise e, listed st)
      | Ok response =>
          match json response with
          | Raise e => (Raise e, listed st)
          | Ok body =>
              match dict_get (Account.name (App.account (App.self st))) body with
              | None =>
                  (Raise (KeyError (Account.name (App.account (App.self st)))),
                   listed st)
              | Some names =>
                  (Ok names, snd (App.setattr (App.with___clusternames names) (listed st)))
              end
          end
      end
  end.
Proof.
  unfold App.clusternames, bind, get, App.requests_get, lift, getitem, ret, listed.
  destruct (App.__clusternames (App.self st)); [reflexivity|].
  destruct (clusters_endpoint inventory _ _) as [response|e]; [|reflexivity].
  destruct (json response) as [body|e]; [|reflexivity].
  destruct (dict_get _ body); reflexivity.
Qed.


Lemma fetch_cons application account c names d0 st :
  fetch inventory application account (c :: names) d0 st =
  let url := CLUSTERDETAILS_URL application account c in
  let st1 := {| App.self := App.self st; App.sent := App.sent st ++ [url] |} in
  match clusterdetails_endpoint inventory (App.sent st) url with
  | Raise e => (Raise e, st1)
  | Ok response =>
      match json response with
      | Raise e => (Raise e, st1)
      | Ok body => fetch inventory application account names (dict_set c body d0) st1
      end
  end.
Proof.
  unfold fetch. cbn [foldM]. unfold bind at 1 2, App.requests_get, lift, ret.
  destruct (clusterdetails_endpoint inventory _ _) as [response|e]; [|reflexivity].
  cbn. destruct (json response) as [body|e]; reflexivity.
Qed.

Lemma clusterdetails_eq (st : App.state) :
  clusterdetails st =
  match App.__clusterdetails (App.self st) with
  | Some details => (Ok details, st)
  | None =>
      match clusternames st with
      | (Raise e, st1) => (Raise e, st1)
      | (Ok names, st1) =>
          match fetch inventory (App.name (App.self st))
                  (Account.name (App.account (App.self st))) names [] st1 with
          | (Raise e, st2) => (Raise e, st2)
          | (Ok details, st2) =>
              (Ok details, snd (App.setattr (App.with___clusterdetails details) st2))
          end
      end
  end.
Proof.
  unfold App.clusterdetails at 1. unfold bind at 1, get.
  destruct (App.__clusterdetails (App.self st)); [reflexivity|].
  unfold bind at 1. destruct (clusternames st) as [[names|e] st1]; [|reflexivity].
  unfold bind at 1. fold (fetch inventory (App.name (App.self st))
                             (Account.name (App.account (App.self st)))).
  destruct (fetch _ _ _ names [] st1) as [[details|e] st2]; reflexivity.
Qed.


Lemma foldM_lift {A B} (f : B -> A -> result B) (xs : list A) (acc : B)
  (st : App.state) :
  foldM (fun acc x => lift (f acc x)) xs acc st = (rfold f xs acc, st).
Proof.
  revert acc; induction xs as [|x xs IH]; intros acc; cbn [foldM rfold].
  - reflexivity.
  - unfold bind, lift at 1. destruct (f acc x) as [acc'|e]; cbn [rbind].
    + apply IH.
    + reflexivity.
Qed.

Lemma clusterdetails_cached (st : App.state) details :
  App.__clusterdetails (App.self st) = Some details ->
  clusterdetails st = (Ok details, st).
Proof. intros H. rewrite clusterdetails_eq, H. reflexivity. Qed.

Lemma servergroups_loop (st : App.state) details keys acc :
  App.__clusterdetails (App.self st) = Some details ->
  foldM (fun groups cluster =>
           details <- clusterdetails ;;
           detail <- lift (getitem details cluster) ;;
           elements <- lift (getfield "serverGroups"
                               (ClusterDetail.serverGroups detail)) ;;
           foldM (fun groups element =>
                    x <- lift (App.extract element) ;;
                    ret (groups ++ [x]))
                 elements groups)
        keys acc st
  = (rfold (fun groups cluster =>
              rbind (getitem details cluster) (fun detail =>
              rbind (getfield "serverGroups" (ClusterDetail.serverGroups detail))
                    (fun elements =>
              rfold (fun groups element =>
                       rbind (App.extract element) (fun x => Ok (groups ++ [x])))
                    elements groups)))
           keys acc, st).
Proof.
  intros Hd. revert acc.
  induction keys as [|cluster keys IH]; intros acc; cbn [foldM rfold].
  - reflexivity.
  - unfold bind at 1. unfold bind at 1.
    rewrite (clusterdetails_cached _ Hd).
    unfold bind at 1, lift at 1.
    destruct (getitem details cluster) as [detail|e]; cbn [rbind]; [|reflexivity].
    unfold bind at 1, lift at 1.
    destruct (getfield "serverGroups" _) as [elements|e]; cbn [rbind];
      [|reflexivity].
    assert (E : forall els g,
               foldM (fun groups element =>
                        x <- lift (App.extract element) ;; ret (groups ++ [x]))
                     els g st
               = (rfold (fun groups element =>
                           rbind (App.extract element)
                                 (fun x => Ok (groups ++ [x]))) els g, st)).
    { induction els as [|el els IHe]; intros g; cbn [foldM rfold];
        [reflexivity|].
      unfold bind at 1. unfold bind at 1, lift at 1.
      destruct (App.extract el) as [x|e]; cbn [rbind]; [|reflexivity].
      unfold ret at 1. apply IHe. }
    rewrite E.
    destruct (rfold _ elements acc) as [acc'|e]; [apply IH|reflexivity].
Qed.

Lemma servergroups_eq (st : App.state) :
  servergroups st =
  match App.__servergroups (App.self st) with
  | Some groups => (Ok groups, st)
  | None =>
      match clusterdetails st with
      | (Raise e, st1) => (Raise e, st1)
      | (Ok details, st1) =>
          match App.__clusterdetails (App.self st1) with
          | Some details' =>
              match rfold (fun groups cluster =>
                      rbind (getitem details' cluster) (fun detail =>
                      rbind (getfield "serverGroups"
                               (ClusterDetail.serverGroups detail))
                            (fun elements =>
                      rfold (fun groups element =>
                               rbind (App.extract element)
                                     (fun x => Ok (groups ++ [x])))
                            elements groups)))
                      (dict_keys details) [] with
              | Raise e => (Raise e, st1)
              | Ok groups =>
                  (Ok groups,
                   snd (App.setattr (App.with___servergroups groups) st1))
              end
          | None => servergroups st
          end
      end
  end.
Proof.
  destruct (App.__servergroups (App.self st)) eqn:H3.
  { unfold App.servergroups, bind, get. rewrite H3. reflexivity. }
  destruct (clusterdetails st) as [[details|e] st1] eqn:H2.
  - destruct (App.__clusterdetails (App.self st1)) as [details'|] eqn:Hd;
      [|reflexivity].
    unfold App.servergroups at 1. unfold bind at 1, get. rewrite H3.
    unfold bind at 1. unfold bind at 1. rewrite H2. unfold ret at 1.
    unfold bind at 1. erewrite servergroups_loop by exact Hd.
    destruct (rfold _ (dict_keys details) []); reflexivity.
  - unfold App.servergroups at 1. unfold bind at 1, get. rewrite H3.
    unfold bind at 1. unfold bind at 1. rewrite H2. reflexivity.
Qed.

Lemma instances_by_region_eq (st : App.state) :
  instances_by_region st =
  match App.__instances_by_region (App.self st) with
  | Some by_region => (Ok by_region, st)
  | None =>
      match servergroups st with
      | (Raise e, st1) => (Raise e, st1)
      | (Ok groups, st1) =>
          match regroup groups with
          | Raise e => (Raise e, st1)
          | Ok by_region =>
              (Ok by_region,
               snd (App.setattr (App.with___instances_by_region by_region) st1))
          end
      end
  end.
Proof.
  unfold App.instances_by_region at 1. unfold bind at 1, get.
  destruct (App.__instances_by_region (App.self st)); [reflexivity|].
  unfold bind at 1. destruct (servergroups st) as [[groups|e] st1]; [|reflexivity].
  unfold bind at 1, lift at 1. destruct (regroup groups); reflexivity.
Qed.

(** *** What a read of a property does to the state *)

Lemma grows_refl j st : grows j st st.
Proof.
  repeat split; auto. exists []. now rewrite app_nil_r.
Qed.

Lemma grows_trans j st1 st2 st3 :
  grows j st1 st2 -> grows j st2 st3 -> grows j st1 st3.
Proof.
  intros (N1 & A1 & [m1 S1] & L1 & M1) (N2 & A2 & [m2 S2] & L2 & M2).
  repeat split.
  - congruence.
  - congruence.
  - exists (m1 ++ m2). now rewrite S2, S1, app_assoc.
  - intros q Hq. now rewrite L2, L1.
  - intros q w Hq. auto.
Qed.

Lemma grows_le j j' st st' : j <= j' -> grows j st st' -> grows j' st st'.
Proof.
  intros Hle (N & A & S & L & Mo). repeat split; auto.
  intros q Hq. apply L. lia.
Qed.

Lemma grows_sent j a sent more :
  grows j {| App.self := a; App.sent := sent |}
          {| App.self := a; App.sent := sent ++ more |}.
Proof. repeat split; auto. now exists more. Qed.

Lemma grows_set1 st v :
  App.__clusternames (App.self st) = None ->
  grows 1 st (snd (App.setattr (App.with___clusternames v) st)).
Proof.
  intros H. repeat split; auto.
  - exists []. simpl. now rewrite app_nil_r.
  - intros [] Hq; simpl in *; try reflexivity; lia.
  - intros [] w; simpl; auto. rewrite H. discriminate.
Qed.

Lemma grows_set2 st v :
  App.__clusterdetails (App.self st) = None ->
  grows 2 st (snd (App.setattr (App.with___clusterdetails v) st)).
Proof.
  intros H. repeat split; auto.
  - exists []. simpl. now rewrite app_nil_r.
  - intros [] Hq; simpl in *; try reflexivity; lia.
  - intros [] w; simpl; auto. rewrite H. discriminate.
Qed.

Lemma grows_set3 st v :
  App.__servergroups (App.self st) = None ->
  grows 3 st (snd (App.setattr (App.with___servergroups v) st)).
Proof.
  intros H. repeat split; auto.
  - exists []. simpl. now rewrite app_nil_r.
  - intros [] Hq; simpl in *; try reflexivity; lia.
  - intros [] w; simpl; auto. rewrite H. discriminate.
Qed.


(** A slot that is unset stays unset when only lower ranks are read. *)
Lemma grows_later j st st' q :
  grows j st st' -> j < App.rank q ->
  App.slot q (App.self st) = None -> App.slot q (App.self st') = None.
Proof. intros (_ & _ & _ & L & _) Hq H. now rewrite L. Qed.

Lemma slot2_None a :
  App.slot App.Clusterdetails a = None <-> App.__clusterdetails a = None.
Proof. simpl. destruct (App.__clusterdetails a); simpl; split; easy. Qed.

Lemma slot3_None a :
  App.slot App.Servergroups a = None <-> App.__servergroups a = None.
Proof. simpl. destruct (App.__servergroups a); simpl; split; easy. Qed.

Lemma slot4_None a :
  App.slot App.Instances_by_region a = None
  <-> App.__instances_by_region a = None.
Proof. simpl. destruct (App.__instances_by_region a); simpl; split; easy. Qed.

Lemma clusternames_post st r st' :
  clusternames st = (r, st') ->
  grows 1 st st' /\
  match r with
  | Ok v => App.__clusternames (App.self st') = Some v
  | Raise e =>
      App.__clusternames (App.self st) = None /\
      grows 0 st st' /\
      names_raise inventory st e
  end.
Proof.
  rewrite clusternames_eq. unfold names_raise, listing_fails.
  destruct (App.__clusternames (App.self st)) as [names|] eqn:H1.
  { intros E; injection E as <- <-. split; [apply grows_refl|assumption]. }
  assert (Hl : forall j, grows j st (listed st)).
  { intros j. destruct st; apply grows_sent. }
  destruct (clusters_endpoint inventory _ _) as [response|e] eqn:Hc.
  - destruct (json response) as [body|e] eqn:Hj.
    + destruct (dict_get _ body) as [names|] eqn:Hb;
        intros E; injection E as <- <-.
      * split; [|reflexivity].
        apply (grows_trans (Hl 1)). exact (@grows_set1 (listed st) names H1).
      * split; [apply Hl|]. split; [reflexivity|]. split; [apply Hl|].
        split; [reflexivity|]. right; right.
        exists response, body. auto.
    + intros E; injection E as <- <-.
      split; [apply Hl|]. split; [reflexivity|]. split; [apply Hl|].
      split; [reflexivity|]. right; left.
      exists response. auto.
  - intros E; injection E as <- <-.
    split; [apply Hl|]. split; [reflexivity|]. split; [apply Hl|].
    split; [reflexivity|]. now left.
Qed.

Lemma clusternames_cached st names :
  App.__clusternames (App.self st) = Some names ->
  clusternames st = (Ok names, st).
Proof. intros H. rewrite clusternames_eq, H. reflexivity. Qed.

Lemma fetch_spec application account names :
  forall d0 st r st',
  fetch inventory application account names d0 st = (r, st') ->
  App.self st' = App.self st /\
  exists n,
    n <= List.length names /\
    App.sent st'
    = App.sent st
      ++ map (CLUSTERDETAILS_URL application account) (firstn n names) /\
    match r with
    | Ok d =>
        n = List.length names /\
        (forall k, In k (dict_keys d) <-> In k (dict_keys d0) \/ In k names) /\
        (NoDup (dict_keys d0) -> NoDup (dict_keys d)) /\
        (forall k, ~ In k names -> dict_get k d = dict_get k d0) /\
        (forall before c after,
            names = before ++ c :: after ->
            exists response body,
              clusterdetails_endpoint inventory
                (App.sent st
                 ++ map (CLUSTERDETAILS_URL application account) before)
                (CLUSTERDETAILS_URL application account c) = Ok response /\
              json response = Ok body /\
              (~ In c after -> dict_get c d = Some body))
    | Raise e =>
        1 <= n /\
        fetch_fails inventory application account (App.sent st) names e
    end.
Proof.
  induction names as [|c names IH]; intros d0 st r st'.
  - intros E; injection E as <- <-.
    split; [reflexivity|]. exists 0. split; [lia|].
    split; [simpl; now rewrite app_nil_r|].
    split; [reflexivity|]. split; [simpl; tauto|]. split; [auto|].
    split; [reflexivity|].
    intros [|? ?] ? ? ?; discriminate.
  - rewrite fetch_cons. cbv zeta.
    set (url := CLUSTERDETAILS_URL application account c).
    destruct (clusterdetails_endpoint inventory (App.sent st) url)
      as [response|e] eqn:Hc.
    + destruct (json response) as [body|e] eqn:Hj.
      * intros E. apply IH in E. cbn [App.self App.sent] in E.
        destruct E as (Hself & n & Hn & Hsent & Hr).
        split; [assumption|]. exists (S n). split; [simpl; lia|].
        split; [rewrite Hsent, <- app_assoc; reflexivity|].
        destruct r as [d|e].
        2: { destruct Hr as (_ & before & c' & after & -> & Hok & Hfail).
             split; [lia|]. exists (c :: before), c', after.
             split; [reflexivity|]. split.
             - intros [|b0 b1] b b2 Hb; simpl in Hb; injection Hb as <- Hb.
               + exists response, body. simpl. rewrite app_nil_r. auto.
               + destruct (Hok b1 b b2 Hb) as (rsp & bd & H1 & H2).
                 exists rsp, bd. simpl.
                 rewrite <- app_assoc in H1. simpl in H1. fold url in H1.
                 auto.
             - rewrite <- app_assoc in Hfail. simpl in Hfail.
               fold url in Hfail. simpl. exact Hfail. }
        destruct Hr as (-> & Hkeys & Hnd & Hout & Hpos).
        split; [reflexivity|].
        split.
        { intros k. rewrite Hkeys, dict_keys_set. simpl.
          split; [intros [[->|H]|H]|intros [H|[->|H]]]; auto. }
        split.
        { intros H. apply Hnd. now apply dict_keys_set_NoDup. }
        split.
        { intros k Hk. rewrite Hout by (intros H; apply Hk; now right).
          apply dict_get_set_other. intros ->. apply Hk. now left. }
        intros before c' after Hsplit.
        destruct before as [|b before]; simpl in Hsplit;
          injection Hsplit as <- Hnames.
        -- exists response, body. simpl. rewrite app_nil_r.
           split; [assumption|]. split; [assumption|].
           intros Hnot. subst names. rewrite Hout by assumption.
           apply dict_get_set_same.
        -- destruct (Hpos before c' after Hnames) as (rsp & bd & H1 & H2 & H3).
           exists rsp, bd. simpl.
           rewrite <- app_assoc in H1. simpl in H1. fold url in H1.
           auto.
      * intros E; injection E as <- <-.
        split; [reflexivity|]. exists 1. split; [simpl; lia|].
        split; [reflexivity|]. split; [lia|].
        exists [], c, names. split; [reflexivity|]. split.
        { intros [|? ?] ? ? ?; discriminate. }
        simpl. rewrite app_nil_r. right. exists response. auto.
    + intros E; injection E as <- <-.
      split; [reflexivity|]. exists 1. split; [simpl; lia|].
      split; [reflexivity|]. split; [lia|].
      exists [], c, names. split; [reflexivity|]. split.
      { intros [|? ?] ? ? ?; discriminate. }
      simpl. rewrite app_nil_r. now left.
Qed.

Lemma grows_self j st st' :
  App.self st' = App.self st ->
  (exists more, App.sent st' = App.sent st ++ more) ->
  grows j st st'.
Proof.
  intros Hs Hm. unfold grows. rewrite Hs. repeat split; auto.
Qed.

Lemma clusterdetails_post st r st' :
  clusterdetails st = (r, st') ->
  grows 2 st st' /\
  match r with
  | Ok v => App.__clusterdetails (App.self st') = Some v
  | Raise e =>
      App.__clusterdetails (App.self st) = None /\
      grows 1 st st' /\
      details_raise inventory st e
  end.
Proof.
  rewrite clusterdetails_eq.
  destruct (App.__clusterdetails (App.self st)) as [details|] eqn:H2.
  { intros E; injection E as <- <-. split; [apply grows_refl|assumption]. }
  destruct (clusternames st) as [[names|e] st1] eqn:E1;
    pose proof E1 as E1'; apply clusternames_post in E1';
    destruct E1' as [G1 P1].
  - destruct (fetch _ _ _ names [] st1) as [[details|e] st2] eqn:E2;
      apply fetch_spec in E2; destruct E2 as (Hself & n & _ & Hsent & Hr);
      intros E; injection E as <- <-.
    + assert (G2 : grows 1 st st2).
      { apply (grows_trans G1). apply grows_self; eauto. }
      assert (H2' : App.__clusterdetails (App.self st2) = None).
      { apply slot2_None. apply (grows_later App.Clusterdetails G2); [simpl; lia|].
        now apply slot2_None. }
      split; [|reflexivity].
      apply (grows_trans (st2 := st2)).
      * apply (grows_le (j := 1)); [lia|assumption].
      * now apply grows_set2.
    + assert (G2 : grows 1 st st2).
      { apply (grows_trans G1). apply grows_self; eauto. }
      split; [apply (grows_le (j := 1)); [lia|assumption]|].
      split; [reflexivity|]. split; [assumption|].
      split; [assumption|]. right. exists names, st1.
      split; [assumption|apply Hr].
  - intros E; injection E as <- <-.
    destruct P1 as (_ & G0 & Hs).
    split; [apply (grows_le (j := 1)); [lia|assumption]|].
    split; [reflexivity|]. split; [assumption|].
    split; [assumption|]. now left.
Qed.

Lemma rfold_error {A B} (P : exn -> Prop) (body : B -> A -> result B) :
  (forall acc x e, body acc x = Raise e -> P e) ->
  forall xs acc e, rfold body xs acc = Raise e -> P e.
Proof.
  intros Hbody. induction xs as [|x xs IH]; intros acc e; cbn [rfold].
  - discriminate.
  - destruct (body acc x) as [acc'|e'] eqn:Hb; cbn [rbind].
    + apply IH.
    + intros E; injection E as <-. eapply Hbody; eauto.
Qed.

Lemma rmap_error {A B} (P : exn -> Prop) (f : A -> result B) :
  (forall x e, f x = Raise e -> P e) ->
  forall xs e, rmap f xs = Raise e -> P e.
Proof.
  intros Hf. induction xs as [|x xs IH]; intros e; cbn [rmap].
  - discriminate.
  - destruct (f x) as [y|e'] eqn:Hx; cbn [rbind].
    + destruct (rmap f xs) as [ys|e'']; cbn [rbind]; [discriminate|].
      intros E; injection E as <-. now apply IH.
    + intros E; injection E as <-. eapply Hf; eauto.
Qed.

(** *** The first operation that fails in a loop *)

Lemma rfold_first_failure {A B} (body : B -> A -> result B) :
  forall xs acc e,
    rfold body xs acc = Raise e ->
    exists before x after acc',
      xs = before ++ x :: after /\
      rfold body before acc = Ok acc' /\
      body acc' x = Raise e.
Proof.
  induction xs as [|x xs IH]; intros acc e; cbn [rfold].
  - discriminate.
  - destruct (body acc x) as [acc1|e1] eqn:Hb; cbn [rbind].
    + intros E.
      destruct (IH _ _ E) as (before & y & after & acc' & -> & Hpre & Hy).
      exists (x :: before), y, after, acc'. split; [reflexivity|].
      split; [|assumption]. cbn [rfold]. rewrite Hb. exact Hpre.
    + intros E; injection E as <-. exists [], x, xs, acc. auto.
Qed.

Lemma rfold_ok_each {A B} (P : A -> Prop) (body : B -> A -> result B) :
  (forall acc x acc', body acc x = Ok acc' -> P x) ->
  forall xs acc acc', rfold body xs acc = Ok acc' -> Forall P xs.
Proof.
  intros Hbody. induction xs as [|x xs IH]; intros acc acc'; cbn [rfold].
  - constructor.
  - destruct (body acc x) as [acc1|e1] eqn:Hb; cbn [rbind]; [|discriminate].
    intros E. constructor; eauto.
Qed.

Lemma rmap_ok_each {A B} (P : A -> Prop) (f : A -> result B) :
  (forall x y, f x = Ok y -> P x) ->
  forall xs ys, rmap f xs = Ok ys -> Forall P xs.
Proof.
  intros Hf. induction xs as [|x xs IH]; intros ys; cbn [rmap].
  - constructor.
  - destruct (f x) as [y|e] eqn:Hx; cbn [rbind]; [|discriminate].
    destruct (rmap f xs) as [ys'|e] eqn:Hxs; cbn [rbind]; [|discriminate].
    intros _. constructor; eauto.
Qed.

Lemma rmap_first_failure {A B} (P : A -> Prop) (f : A -> result B) :
  (forall x y, f x = Ok y -> P x) ->
  forall xs e,
    rmap f xs = Raise e ->
    exists before x after,
      xs = before ++ x :: after /\ Forall P before /\ f x = Raise e.
Proof.
  intros Hf. induction xs as [|x xs IH]; intros e; cbn [rmap].
  - discriminate.
  - destruct (f x) as [y|e1] eqn:Hx; cbn [rbind].
    + destruct (rmap f xs) as [ys|e2] eqn:Hxs; cbn [rbind]; [discriminate|].
      intros E; injection E as <-.
      destruct (IH _ eq_refl) as (before & z & after & -> & Hpre & Hz).
      exists (x :: before), z, after. split; [reflexivity|].
      split; [|assumption]. constructor; eauto.
    + intros E; injection E as <-. exists [], x, xs. auto.
Qed.

Lemma instanceId_ok (instance : Instance.t) (y : string) :
  getfield "instanceId" (Instance.instanceId instance) = Ok y ->
  instance_ok instance.
Proof.
  unfold instance_ok. destruct (Instance.instanceId instance); cbn [getfield].
  - discriminate.
  - discriminate.
Qed.

Lemma extract_ok element x :
  App.extract element = Ok x -> element_ok element.
Proof.
  unfold App.extract, element_ok.
  destruct (ServerGroup.name element) as [group|]; cbn [getfield rbind];
    [|discriminate].
  destruct (ServerGroup.region element) as [region|]; cbn [getfield rbind];
    [|discriminate].
  destruct (ServerGroup.instances element) as [insts|]; cbn [getfield rbind];
    [|discriminate].
  destruct (rmap _ insts) as [instances|e] eqn:Hm; cbn [rbind]; [|discriminate].
  intros _. split; [discriminate|]. split; [discriminate|].
  exists insts. split; [reflexivity|].
  exact (@rmap_ok_each _ _ _ _ instanceId_ok _ _ Hm).
Qed.

Lemma extract_fails element e :
  App.extract element = Raise e -> element_fails element e.
Proof.
  unfold App.extract, element_fails.
  destruct (ServerGroup.name element) as [group|]; cbn [getfield rbind].
  2: { intros E; injection E as <-. left. auto. }
  destruct (ServerGroup.region element) as [region|]; cbn [getfield rbind].
  2: { intros E; injection E as <-. right; left.
       split; [discriminate|]. auto. }
  destruct (ServerGroup.instances element) as [insts|]; cbn [getfield rbind].
  2: { intros E; injection E as <-. right; right; left.
       split; [discriminate|]. split; [discriminate|]. auto. }
  destruct (rmap _ insts) as [instances|e'] eqn:Hm; cbn [rbind];
    [discriminate|].
  intros E; injection E as <-.
  right; right; right. split; [discriminate|]. split; [discriminate|].
  destruct (@rmap_first_failure _ _ _ _ instanceId_ok _ _ Hm)
    as (before & instance & after & -> & Hpre & Hi).
  exists before, instance, after. split; [reflexivity|].
  split; [assumption|].
  destruct (Instance.instanceId instance); cbn [getfield] in Hi;
    [discriminate|].
  injection Hi as <-. auto.
Qed.

Lemma inner_loop_ok (elements : list ServerGroup.t) (acc acc' : list entry) :
  rfold (fun groups element =>
           rbind (App.extract element) (fun x => Ok (groups ++ [x])))
        elements acc = Ok acc' ->
  Forall element_ok elements.
Proof.
  apply rfold_ok_each. intros a element a'.
  destruct (App.extract element) as [x|e] eqn:Hx; cbn [rbind]; [|discriminate].
  intros _. eapply extract_ok; eauto.
Qed.

(** When the loops of [servergroups] fail, the error is the [KeyError] of
    the first subscript that fails. *)
Lemma groups_of_fails details e :
  groups_of details = Raise e -> extraction_fails details e.
Proof.
  unfold groups_of. intros E.
  apply rfold_first_failure in E.
  destruct E as (before & cluster & after & acc' & Hkeys & Hpre & Hx).
  assert (Hin : exists detail, dict_get cluster details = Some detail).
  { apply dict_get_In_keys. rewrite Hkeys. apply in_elt. }
  destruct Hin as [detail Hd].
  exists before, cluster, after, detail.
  split; [assumption|]. split; [|split; [assumption|]].
  - apply Forall_forall.
    revert Hpre. apply rfold_ok_each. intros a k a'. unfold getitem.
    destruct (dict_get k details) as [d|] eqn:Hk; cbn [rbind]; [|discriminate].
    destruct (ClusterDetail.serverGroups d) as [elements|] eqn:Hs;
      cbn [getfield rbind]; [|discriminate].
    intros Hok. exists d. split; [reflexivity|].
    exists elements. split; [assumption|]. eapply inner_loop_ok; eauto.
  - unfold getitem in Hx. rewrite Hd in Hx. cbn [rbind] in Hx.
    unfold detail_fails.
    destruct (ClusterDetail.serverGroups detail) as [elements|] eqn:Hs;
      cbn [getfield rbind] in Hx.
    + right. apply rfold_first_failure in Hx.
      destruct Hx as (pre & element & post & a & -> & Hok & Hel).
      exists pre, element, post. split; [reflexivity|].
      split; [eapply inner_loop_ok; eauto|].
      destruct (App.extract element) as [x|e'] eqn:He; cbn [rbind] in Hel;
        [discriminate|].
      injection Hel as <-. now apply extract_fails.
    + left. injection Hx as <-. auto.
Qed.

Lemma servergroups_unfold (st : App.state) :
  servergroups st =
  match App.__servergroups (App.self st) with
  | Some groups => (Ok groups, st)
  | None =>
      match clusterdetails st with
      | (Raise e, st1) => (Raise e, st1)
      | (Ok details, st1) =>
          match groups_of details with
          | Raise e => (Raise e, st1)
          | Ok groups =>
              (Ok groups,
               snd (App.setattr (App.with___servergroups groups) st1))
          end
      end
  end.
Proof.
  rewrite servergroups_eq.
  destruct (App.__servergroups (App.self st)); [reflexivity|].
  destruct (clusterdetails st) as [[details|e] st1] eqn:E2; [|reflexivity].
  apply clusterdetails_post in E2. destruct E2 as [_ ->]. reflexivity.
Qed.

Lemma servergroups_post st r st' :
  servergroups st = (r, st') ->
  grows 3 st st' /\
  match r with
  | Ok v => App.__servergroups (App.self st') = Some v
  | Raise e =>
      App.__servergroups (App.self st) = None /\
      grows 2 st st' /\
      groups_raise inventory st e
  end.
Proof.
  rewrite servergroups_unfold.
  destruct (App.__servergroups (App.self st)) as [groups|] eqn:H3.
  { intros E; injection E as <- <-. split; [apply grows_refl|assumption]. }
  destruct (clusterdetails st) as [[details|e] st1] eqn:E2;
    pose proof E2 as E2'; apply clusterdetails_post in E2';
    destruct E2' as [G2 P2].
  - destruct (groups_of details) as [groups|e] eqn:Hg;
      intros E; injection E as <- <-.
    + split; [|reflexivity].
      apply (grows_trans (st2 := st1)).
      * apply (grows_le (j := 2)); [lia|assumption].
      * apply grows_set3. apply slot3_None.
        apply (grows_later App.Servergroups G2); [simpl; lia|].
        now apply slot3_None.
    + split; [apply (grows_le (j := 2)); [lia|assumption]|].
      split; [reflexivity|]. split; [assumption|].
      split; [assumption|]. right. exists details, st1.
      split; [assumption|]. now apply groups_of_fails.
  - intros E; injection E as <- <-.
    destruct P2 as (_ & G1 & Hs).
    split; [apply (grows_le (j := 1)); [lia|assumption]|].
    split; [reflexivity|].
    split; [apply (grows_le (j := 1)); [lia|assumption]|].
    split; [assumption|]. now left.
Qed.

Lemma servergroups_cached st groups :
  App.__servergroups (App.self st) = Some groups ->
  servergroups st = (Ok groups, st).
Proof. intros H. rewrite servergroups_unfold, H. reflexivity. Qed.



(** *** The same facts for a read of any property *)

Lemma access_eq p st :
  App.access inventory p st =
  match p with
  | App.Clusternames =>
      match clusternames st with
      | (Ok v, st') => (Ok (App.Names v), st')
      | (Raise e, st') => (Raise e, st')
      end
  | App.Clusterdetails =>
      match clusterdetails st with
      | (Ok v, st') => (Ok (App.Details v), st')
      | (Raise e, st') => (Raise e, st')
      end
  | App.Servergroups =>
      match servergroups st with
      | (Ok v, st') => (Ok (App.Groups v), st')
      | (Raise e, st') => (Raise e, st')
      end
  | App.Instances_by_region =>
      match instances_by_region st with
      | (Ok v, st') => (Ok (App.By_region v), st')
      | (Raise e, st') => (Raise e, st')
      end
  end.
Proof.
  destruct p; unfold App.access, bind, ret.
  - destruct (clusternames st) as [[v|e] st']; reflexivity.
  - destruct (clusterdetails st) as [[v|e] st']; reflexivity.
  - destruct (servergroups st) as [[v|e] st']; reflexivity.
  - destruct (instances_by_region st) as [[v|e] st']; reflexivity.
Qed.



End Pipeline.

(* ================================================================= *)
(** ** app.py: memoization *)




(* ================================================================= *)
(** ** app.py: the cluster-detail stage *)

(** C6: when [clusterdetails] runs the stage (the attribute is unset) and
    returns, then with [names] the list that [clusternames] gives: the
    requests sent by the stage are the detail URLs of [names], one for
    each entry and in the order of the list; the keys of the result are
    exactly the names in the list; every fetch returned a response that
    decoded to a body; and a name is mapped to the body of its fetch (of
    the last one, should the list hold the name twice). *)
Theorem C6_one_fetch_per_name (inventory : Inventory)
  (st st' : App.state) (details : pydict ClusterDetail.t) :
  App.__clusterdetails (App.self st) = None ->
  App.clusterdetails inventory st = (Ok details, st') ->
  exists names st1,
    let url := CLUSTERDETAILS_URL (App.name (App.self st))
                 (Account.name (App.account (App.self st))) in
    App.clusternames inventory st = (Ok names, st1) /\
    App.__clusternames (App.self st') = Some names /\
    App.__clusterdetails (App.self st') = Some details /\
    App.sent st' = App.sent st1 ++ map url names /\
    (forall k, In k (dict_keys details) <-> In k names) /\
    NoDup (dict_keys details) /\
    (forall before c after,
        names = before ++ c :: after ->
        exists response body,
          clusterdetails_endpoint inventory
            (App.sent st1 ++ map url before) (url c) = Ok response /\
          json response = Ok body /\
          (~ In c after -> dict_get c details = Some body)).
Proof.
  intros H2 E. rewrite clusterdetails_eq, H2 in E.
  destruct (App.clusternames inventory st) as [[names|e] st1] eqn:E1;
    [|discriminate].
  destruct (fetch _ _ _ names [] st1) as [[d|e] st2] eqn:E2; [|discriminate].
  injection E as -> <-.
  apply clusternames_post in E1. destruct E1 as [G1 P1].
  apply fetch_spec in E2.
  destruct E2 as (Hself & n & _ & Hsent & -> & Hkeys & Hnd & _ & Hpos).
  rewrite firstn_all in Hsent.
  exists names, st1. cbv zeta. cbn [App.setattr snd App.self App.sent].
  split; [reflexivity|].
  split; [cbn; now rewrite Hself|].
  split; [reflexivity|].
  split; [assumption|].
  split; [intros k; rewrite Hkeys; simpl; tauto|].
  split; [apply Hnd; constructor|].
  assumption.
Qed.

(** The end-to-end scenario, on a fresh instance. *)
Lemma C6_one_fetch_per_name_witness :
  exists names st1,
    App.clusternames checkout_inventory (fresh "checkout" test_account [])
    = (Ok names, st1) /\
    forall k, In k (dict_keys [("checkout-test-v001", checkout_detail)])
              <-> In k names.
Proof.
  destruct (@C6_one_fetch_per_name checkout_inventory
              (fresh "checkout" test_account [])
              (snd (App.clusterdetails checkout_inventory
                      (fresh "checkout" test_account [])))
              [("checkout-test-v001", checkout_detail)]
              eq_refl eq_refl)
    as (names & st1 & H1 & _ & _ & _ & Hk & _).
  exists names, st1. split; [exact H1|exact Hk].
Defined.

(* ================================================================= *)
(** ** app.py: reading the last property first *)

Section Order.
Variable inventory : Inventory.

Lemma fetch_same_identity (st st1 : App.state) names d0 :
  App.name (App.self st1) = App.name (App.self st) ->
  App.account (App.self st1) = App.account (App.self st) ->
  fetch inventory (App.name (App.self st1))
    (Account.name (App.account (App.self st1))) names d0
  = fetch inventory (App.name (App.self st))
      (Account.name (App.account (App.self st))) names d0.
Proof. intros -> ->. reflexivity. Qed.

(** A stage reads the stage before it by itself: reading that one first
    makes no difference. *)
Lemma clusterdetails_after_clusternames (st : App.state) :
  App.__clusterdetails (App.self st) = None ->
  (App.clusternames inventory ;; App.clusterdetails inventory) st
  = App.clusterdetails inventory st.
Proof.
  intros H2. unfold bind at 1.
  rewrite (clusterdetails_eq inventory st), H2.
  destruct (App.clusternames inventory st) as [[names|e] st1] eqn:E1;
    [|reflexivity].
  apply clusternames_post in E1. destruct E1 as [G1 P1].
  rewrite clusterdetails_eq.
  assert (H2' : App.__clusterdetails (App.self st1) = None).
  { apply slot2_None. apply (grows_later App.Clusterdetails G1); [simpl; lia|].
    now apply slot2_None. }
  rewrite H2', (clusternames_cached _ _ P1).
  destruct G1 as (N & A & _).
  now rewrite (@fetch_same_identity st st1 names [] N A).
Qed.

Lemma servergroups_after_clusterdetails (st : App.state) :
  App.__servergroups (App.self st) = None ->
  (App.clusterdetails inventory ;; App.servergroups inventory) st
  = App.servergroups inventory st.
Proof.
  intros H3. unfold bind at 1.
  rewrite (servergroups_unfold inventory st), H3.
  destruct (App.clusterdetails inventory st) as [[details|e] st1] eqn:E2;
    [|reflexivity].
  apply clusterdetails_post in E2. destruct E2 as [G2 P2].
  rewrite servergroups_unfold.
  assert (H3' : App.__servergroups (App.self st1) = None).
  { apply slot3_None. apply (grows_later App.Servergroups G2); [simpl; lia|].
    now apply slot3_None. }
  now rewrite H3', (clusterdetails_cached _ _ P2).
Qed.

Lemma instances_by_region_after_servergroups (st : App.state) :
  App.__instances_by_region (App.self st) = None ->
  (App.servergroups inventory ;; App.instances_by_region inventory) st
  = App.instances_by_region inventory st.
Proof.
  intros H4. unfold bind at 1.
  rewrite (instances_by_region_eq inventory st), H4.
  destruct (App.servergroups inventory st) as [[groups|e] st1] eqn:E3;
    [|reflexivity].
  apply servergroups_post in E3. destruct E3 as [G3 P3].
  rewrite instances_by_region_eq.
  assert (H4' : App.__instances_by_region (App.self st1) = None).
  { apply slot4_None.
    apply (grows_later App.Instances_by_region G3); [simpl; lia|].
    now apply slot4_None. }
  now rewrite H4', (servergroups_cached _ _ P3).
Qed.

Lemma bind_assoc {S A B C} (m : M S A) (f : A -> M S B) (g : B -> M S C)
  (s : S) :
  bind (bind m f) g s = bind m (fun a => bind (f a) g) s.
Proof. unfold bind. destruct (m s) as [[a|e] s']; reflexivity. Qed.

Lemma bind_cong {S A B} (m m' : M S A) (k : A -> M S B) (s : S) :
  m s = m' s -> bind m k s = bind m' k s.
Proof. unfold bind. now intros ->. Qed.

Lemma staged_eq (st : App.state) :
  App.__clusterdetails (App.self st) = None ->
  App.__servergroups (App.self st) = None ->
  App.__instances_by_region (App.self st) = None ->
  (App.clusternames inventory ;; App.clusterdetails inventory ;;
   App.servergroups inventory ;; App.instances_by_region inventory) st
  = App.instances_by_region inventory st.
Proof.
  intros H2 H3 H4.
  rewrite <- (instances_by_region_after_servergroups st H4).
  rewrite <- (bind_cong _ _ _ st (servergroups_after_clusterdetails st H3)).
  rewrite bind_assoc.
  rewrite <- (bind_cong _ _ _ st (clusterdetails_after_clusternames st H2)).
  rewrite bind_assoc. reflexivity.
Qed.

(** What a successful run of the whole pipeline on a fresh instance is. *)
Lemma direct_run name account sent v st' :
  App.instances_by_region inventory (fresh name account sent) = (Ok v, st') ->
  exists names details groups,
    App.self st' =
    App.with___instances_by_region v
      (App.with___servergroups groups
         (App.with___clusterdetails details
            (App.with___clusternames names (App.__init__ name account)))) /\
    App.sent st' =
    sent ++ CLUSTERS_URL name
         :: map (CLUSTERDETAILS_URL name (Account.name account)) names /\
    (forall k, In k (dict_keys details) <-> In k names) /\
    groups_of details = Ok groups /\
    regroup groups = Ok v.
Proof.
  rewrite instances_by_region_eq, servergroups_unfold, clusterdetails_eq,
    clusternames_eq.
  cbn [fresh App.self App.__init__ App.__instances_by_region
       App.__servergroups App.__clusterdetails App.__clusternames
       App.name App.account App.sent].
  destruct (clusters_endpoint inventory sent (CLUSTERS_URL name))
    as [response|e]; [|discriminate].
  destruct (json response) as [body|e]; [|discriminate].
  destruct (dict_get (Account.name account) body) as [names|]; [|discriminate].
  cbn [App.setattr snd listed App.self App.sent App.name].
  destruct (fetch _ _ _ names [] _) as [[details|e] st2] eqn:E2;
    [|discriminate].
  apply fetch_spec in E2.
  destruct E2 as (Hself & n & _ & Hsent & -> & Hkeys & _).
  rewrite firstn_all in Hsent. cbn [App.self App.sent] in Hself, Hsent.
  destruct (groups_of details) as [groups|e] eqn:Hg; [|discriminate].
  destruct (regroup groups) as [by_region|e] eqn:Hr; [|discriminate].
  intros E; injection E as <- <-.
  exists names, details, groups.
  cbn [App.setattr snd App.self App.sent]. rewrite Hself, Hsent.
  split; [reflexivity|].
  split; [now rewrite <- app_assoc|].
  split; [intros k; rewrite Hkeys; simpl; tauto|].
  split; assumption.
Qed.

End Order.

(** C7: on a freshly constructed instance, for every inventory, reading
    [instances_by_region] right away has the same outcome (value or error,
    and state) as reading [clusternames], [clusterdetails], [servergroups]
    and [instances_by_region] one after the other; and when it returns, all
    four stages have run: the four attributes are set, the listing request
    and one detail request for each cluster name have been sent, and the
    value is the regrouping of the groups of the details. *)
Theorem C7_direct_read_runs_pipeline (inventory : Inventory)
  (name : string) (account : Account.t) (sent : list string) :
  App.instances_by_region inventory (fresh name account sent)
  = (App.clusternames inventory ;; App.clusterdetails inventory ;;
     App.servergroups inventory ;; App.instances_by_region inventory)
      (fresh name account sent) /\
  forall v st',
    App.instances_by_region inventory (fresh name account sent) = (Ok v, st') ->
    exists names details groups,
      App.self st' =
      App.with___instances_by_region v
        (App.with___servergroups groups
           (App.with___clusterdetails details
              (App.with___clusternames names (App.__init__ name account)))) /\
      App.sent st' =
      sent ++ CLUSTERS_URL name
           :: map (CLUSTERDETAILS_URL name (Account.name account)) names /\
      (forall k, In k (dict_keys details) <-> In k names) /\
      groups_of details = Ok groups /\
      regroup groups = Ok v.
Proof.
  split.
  - symmetry. apply staged_eq; reflexivity.
  - intros v st'. apply direct_run.
Qed.

(** The end-to-end scenario: the successful direct read on a fresh
    instance. *)
Lemma C7_direct_read_runs_pipeline_witness :
  exists names details groups,
    App.self (snd (App.instances_by_region checkout_inventory
                     (fresh "checkout" test_account []))) =
    App.with___instances_by_region [("checkout-test-v001", ["i-aaa"; "i-bbb"])]
      (App.with___servergroups groups
         (App.with___clusterdetails details
            (App.with___clusternames names
               (App.__init__ "checkout" test_account)))) /\
    App.sent (snd (App.instances_by_region checkout_inventory
                     (fresh "checkout" test_account []))) =
    [] ++ CLUSTERS_URL "checkout"
       :: map (CLUSTERDETAILS_URL "checkout" (Account.name test_account))
              names /\
    (forall k, In k (dict_keys details) <-> In k names) /\
    groups_of details = Ok groups /\
    regroup groups = Ok [("checkout-test-v001", ["i-aaa"; "i-bbb"])].
Proof.
  apply (proj2 (C7_direct_read_runs_pipeline checkout_inventory
                  "checkout" test_account [])).
  reflexivity.
Defined.

(* ================================================================= *)
(** ** app.py: a read that fails *)

Section Failure.
Variable inventory : Inventory.


Lemma complete_chain (a : App.t) :
  complete a ->
  (App.__clusternames a = None -> App.__clusterdetails a = None) /\
  (App.__clusterdetails a = None -> App.__servergroups a = None) /\
  (App.__servergroups a = None -> App.__instances_by_region a = None).
Proof.
  intros (C2 & C3 & C4). repeat split; intros H.
  - destruct (App.__clusterdetails a) as [d|]; [|reflexivity].
    destruct (C2 d eq_refl) as (names & Hn & _). congruence.
  - destruct (App.__servergroups a) as [g|]; [|reflexivity].
    destruct (C3 g eq_refl) as (d & Hd & _). congruence.
  - destruct (App.__instances_by_region a) as [b|]; [|reflexivity].
    destruct (C4 b eq_refl) as (g & Hg & _). congruence.
Qed.

Lemma clusternames_complete st r st' :
  complete (App.self st) ->
  App.clusternames inventory st = (r, st') ->
  complete (App.self st').
Proof.
  intros Hc. rewrite clusternames_eq.
  destruct (App.__clusternames (App.self st)) as [names|] eqn:H1.
  { intros E; injection E as <- <-. assumption. }
  destruct (complete_chain Hc) as (K1 & K2 & K3).
  pose proof (K1 H1) as H2. pose proof (K2 H2) as H3. pose proof (K3 H3) as H4.
  destruct (clusters_endpoint inventory _ _) as [response|e];
    [|intros E; injection E as <- <-; assumption].
  destruct (json response) as [body|e];
    [|intros E; injection E as <- <-; assumption].
  destruct (dict_get _ body) as [names|];
    intros E; injection E as <- <-; [|assumption].
  cbn. repeat split; cbn; intros x Hx; congruence.
Qed.

Lemma clusterdetails_complete st r st' :
  complete (App.self st) ->
  App.clusterdetails inventory st = (r, st') ->
  complete (App.self st').
Proof.
  intros Hc. rewrite clusterdetails_eq.
  destruct (App.__clusterdetails (App.self st)) as [details|] eqn:H2.
  { intros E; injection E as <- <-. assumption. }
  destruct (App.clusternames inventory st) as [[names|e] st1] eqn:E1.
  - assert (Hc1 : complete (App.self st1))
      by (eapply clusternames_complete; eauto).
    apply clusternames_post in E1. destruct E1 as [G1 P1].
    assert (H2' : App.__clusterdetails (App.self st1) = None).
    { apply slot2_None.
      apply (grows_later App.Clusterdetails G1); [simpl; lia|].
      now apply slot2_None. }
    destruct (complete_chain Hc1) as (_ & K2 & K3).
    pose proof (K2 H2') as H3. pose proof (K3 H3) as H4.
    destruct (fetch _ _ _ names [] st1) as [[details|e] st2] eqn:E2;
      apply fetch_spec in E2; destruct E2 as (Hself & n & _ & _ & Hr);
      intros E; injection E as <- <-.
    + cbn. rewrite Hself.
      destruct Hr as (_ & Hkeys & _).
      repeat split; cbn.
      * intros x Hx. injection Hx as <-. exists names.
        split; [assumption|]. intros k. rewrite Hkeys. simpl. tauto.
      * intros x Hx. congruence.
      * intros x Hx. congruence.
    + now rewrite Hself.
  - intros E; injection E as <- <-.
    eapply clusternames_complete; eauto.
Qed.

Lemma servergroups_complete st r st' :
  complete (App.self st) ->
  App.servergroups inventory st = (r, st') ->
  complete (App.self st').
Proof.
  intros Hc. rewrite servergroups_unfold.
  destruct (App.__servergroups (App.self st)) as [groups|] eqn:H3.
  { intros E; injection E as <- <-. assumption. }
  destruct (App.clusterdetails inventory st) as [[details|e] st1] eqn:E2.
  - assert (Hc1 : complete (App.self st1))
      by (eapply clusterdetails_complete; eauto).
    apply clusterdetails_post in E2. destruct E2 as [G2 P2].
    assert (H3' : App.__servergroups (App.self st1) = None).
    { apply slot3_None.
      apply (grows_later App.Servergroups G2); [simpl; lia|].
      now apply slot3_None. }
    destruct (complete_chain Hc1) as (_ & _ & K3).
    pose proof (K3 H3') as H4.
    destruct (groups_of details) as [groups|e] eqn:Hg;
      intros E; injection E as <- <-; [|assumption].
    destruct Hc1 as (C2 & _ & _).
    cbn. repeat split; cbn.
    + exact C2.
    + intros x Hx. injection Hx as <-. exists details. now split.
    + intros x Hx. congruence.
  - intros E; injection E as <- <-.
    eapply clusterdetails_complete; eauto.
Qed.

Lemma instances_by_region_complete st r st' :
  complete (App.self st) ->
  App.instances_by_region inventory st = (r, st') ->
  complete (App.self st').
Proof.
  intros Hc. rewrite instances_by_region_eq.
  destruct (App.__instances_by_region (App.self st)) as [b|] eqn:H4.
  { intros E; injection E as <- <-. assumption. }
  destruct (App.servergroups inventory st) as [[groups|e] st1] eqn:E3.
  - assert (Hc1 : complete (App.self st1))
      by (eapply servergroups_complete; eauto).
    apply servergroups_post in E3. destruct E3 as [G3 P3].
    destruct (regroup groups) as [b|e] eqn:Hr;
      intros E; injection E as <- <-; [|assumption].
    destruct Hc1 as (C2 & C3 & _).
    cbn. repeat split; cbn.
    + exact C2.
    + exact C3.
    + intros x Hx. injection Hx as <-. exists groups. now split.
  - intros E; injection E as <- <-.
    eapply servergroups_complete; eauto.
Qed.

Lemma access_complete p st r st' :
  complete (App.self st) ->
  App.access inventory p st = (r, st') ->
  complete (App.self st').
Proof.
  intros Hc. rewrite access_eq. destruct p.
  - destruct (App.clusternames inventory st) as [[v|e] st1] eqn:E;
      intros E'; injection E' as <- <-; eapply clusternames_complete; eauto.
  - destruct (App.clusterdetails inventory st) as [[v|e] st1] eqn:E;
      intros E'; injection E' as <- <-; eapply clusterdetails_complete; eauto.
  - destruct (App.servergroups inventory st) as [[v|e] st1] eqn:E;
      intros E'; injection E' as <- <-; eapply servergroups_complete; eauto.
  - destruct (App.instances_by_region inventory st) as [[v|e] st1] eqn:E;
      intros E'; injection E' as <- <-;
      eapply instances_by_region_complete; eauto.
Qed.




End Failure.

(** *** The operation named by [raised_by] is the one that fails

    The converse of the failure cases of the lemmas above: when the
    operation that [raised_by] names fails with [e], the read raises [e]. *)











Section Origin.
Variable inventory : Inventory.






End Origin.

(** Every state that reads reach from a fresh instance is [complete]. *)
Lemma reachable_complete (inventory : Inventory) (name : string)
  (account : Account.t) (sent : list string) (ps : list App.property) :
  complete (App.self (after_reads inventory ps (fresh name account sent))).
Proof.
  assert (H0 : complete (App.self (fresh name account sent))).
  { repeat split; intros x Hx; discriminate. }
  revert H0. generalize (fresh name account sent).
  unfold after_reads.
  induction ps as [|p ps IH]; intros st Hc; cbn [fold_left]; [assumption|].
  apply IH.
  destruct (App.access inventory p st) as [r st'] eqn:E.
  cbn [snd]. eapply access_complete; eauto.
Qed.




(* ================================================================= *)
(** ** More of app.py: [__str__] and the URL templates *)

(** The model of [str.format] on the other templates of the source: the
    message of [Account.__init__], formatted with two positional arguments,
    and the two URL templates, formatted with keyword arguments. *)
Lemma str_format_templates (name number application account clustername : string) :
  str_format
    [Text ("AWS account object (name: " ++ Account.dquote)%string; Auto;
     Text (Account.dquote ++ ", number: " ++ Account.dquote)%string; Auto;
     Text (Account.dquote ++ ") created.")%string]
    [name; number] [] 0
  = Ok (Account.created_message name number) /\
  str_format
    [Text "https://INTERNALTOOL/applications/"; Keyword "application";
     Text "/clusters"]
    [] [("application", application)] 0
  = Ok (CLUSTERS_URL application) /\
  str_format
    [Text "https://INTERNALTOOL/applications/"; Keyword "application";
     Text "/clusters/"; Keyword "account"; Text "/"; Keyword "clustername"]
    [] [("application", application); ("account", account);
        ("clustername", clustername)] 0
  = Ok (CLUSTERDETAILS_URL application account clustername).
Proof.
  assert (Hnil : forall s : string, (s ++ EmptyString)%string = s).
  { induction s as [|c s IH]; simpl; [reflexivity|now rewrite IH]. }
  split; [reflexivity|]. split; [reflexivity|].
  cbn [str_format dict_get rbind]. cbn [String.eqb Ascii.eqb Bool.eqb].
  cbn [rbind]. unfold CLUSTERDETAILS_URL. now rewrite Hnil.
Qed.

(** X1: [str(app)] never returns: the template of [__str__] has an
    automatic field and the call passes a keyword argument only, so for
    every instance the formatting raises [IndexError]. *)
Theorem X1_str_raises (self : App.t) :
  App.__str__ self = Raise IndexError.
Proof. reflexivity. Qed.

Lemma append_cancel_l (p a b : string) :
  (p ++ a)%string = (p ++ b)%string -> a = b.
Proof.
  induction p as [|c p IH]; simpl; [auto|].
  intros E; injection E as E. auto.
Qed.

Lemma append_length (a b : string) :
  String.length (a ++ b) = String.length a + String.length b.
Proof. induction a as [|c a IH]; simpl; [reflexivity|now rewrite IH]. Qed.

Lemma append_cancel_r (s a b : string) :
  (a ++ s)%string = (b ++ s)%string -> a = b.
Proof.
  revert b. induction a as [|c a IH]; intros [|d b] E; simpl in E.
  - reflexivity.
  - apply (f_equal String.length) in E. simpl in E.
    rewrite append_length in E. lia.
  - apply (f_equal String.length) in E. simpl in E.
    rewrite append_length in E. lia.
  - injection E as -> E. f_equal. auto.
Qed.

Lemma append_assoc (a b c : string) :
  ((a ++ b) ++ c)%string = (a ++ (b ++ c))%string.
Proof. induction a as [|ch a IH]; simpl; [reflexivity|now rewrite IH]. Qed.

(** X2: the listing URL determines the application (two applications never
    share it), and the detail URL of a cluster is the listing URL of its
    application followed by "/", the account, "/" and the cluster name;
    the names are pasted in as they are, so two different pairs of account
    and cluster name can have the same detail URL. *)
Theorem X2_url_templates :
  (forall application application' : string,
      CLUSTERS_URL application = CLUSTERS_URL application' <->
      application = application') /\
  (forall application account clustername : string,
      CLUSTERDETAILS_URL application account clustername
      = (CLUSTERS_URL application ++ "/" ++ account ++ "/" ++ clustername)%string) /\
  (exists application account clustername account' clustername',
      (account, clustername) <> (account', clustername') /\
      CLUSTERDETAILS_URL application account clustername
      = CLUSTERDETAILS_URL application account' clustername').
Proof.
  split; [|split].
  - intros a b. split; [|now intros ->].
    unfold CLUSTERS_URL. intros E.
    apply append_cancel_l in E. now apply append_cancel_r in E.
  - intros a acct c. unfold CLUSTERDETAILS_URL, CLUSTERS_URL.
    rewrite !append_assoc. reflexivity.
  - exists "checkout", "a/b", "c", "a", "b/c".
    split; [discriminate|reflexivity].
Qed.

(* ================================================================= *)
(** ** More of account.py *)

(** X3: when [Account(name)] returns an instance, the instance has a
    number (the property does not raise on it), the logger's switch is as
    it was, and the records are those from before, followed, if DEBUG
    records are emitted, by the one message that names the account and
    its number. *)
Theorem X3_constructed_account_has_number (name : string)
  (l l' : Account.logger) (self : Account.t) :
  Account.__init__ name l = (Ok self, l') ->
  exists number,
    Account.number self = Ok number /\
    Account.debug_enabled l' = Account.debug_enabled l /\
    Account.records l'
    = Account.records l
      ++ (if Account.debug_enabled l
          then [Account.created_message name number] else []).
Proof.
  unfold Account.__init__, bind, lift, ret, Account.logger_debug.
  destruct (Account.number {| Account.name := name |}) as [number|e] eqn:Hn;
    [|discriminate].
  intros E; injection E as <- <-.
  exists number. split; [assumption|].
  destruct (Account.debug_enabled l) eqn:Hd; cbn.
  - split; [congruence|reflexivity].
  - rewrite Hd, app_nil_r. split; reflexivity.
Qed.

(** [Account("prod")] with DEBUG records switched on. *)
Lemma X3_constructed_account_has_number_witness :
  exists number,
    Account.number {| Account.name := "prod" |} = Ok number /\
    true = true /\
    [Account.created_message "prod" "1234567890"]
    = [] ++ [Account.created_message "prod" number].
Proof.
  destruct (@X3_constructed_account_has_number "prod"
              {| Account.debug_enabled := true; Account.records := [] |}
              {| Account.debug_enabled := true;
                 Account.records :=
                   [Account.created_message "prod" "1234567890"] |}
              {| Account.name := "prod" |} eq_refl)
    as (number & H1 & H2 & H3).
  exists number. split; [exact H1|]. split; [exact H2|exact H3].
Defined.

(* ================================================================= *)
(** ** More of utils.py *)

(** X4: [flatten] goes through concatenation of the outer list, and gives
    back a list from the list of its one-element lists. *)
Theorem X4_flatten_compose (S A : Type) (self : S) :
  (forall a b : list (list A),
      utils.flatten self (a ++ b)
      = utils.flatten self a ++ utils.flatten self b) /\
  (forall l : list A, utils.flatten self (map (fun x => [x]) l) = l).
Proof.
  unfold utils.flatten. split.
  - intros a b. apply flat_map_app.
  - induction l as [|x l IH]; [reflexivity|].
    cbn [map flat_map app]. now rewrite IH.
Qed.

(** X5: [flatten] neither loses nor invents an element: the length of the
    result is the sum of the lengths of the inner lists, and every value
    occurs in the result as many times as in all the inner lists
    together. *)
Theorem X5_flatten_counts (S A : Type) (self : S)
  (eq_dec : forall x y : A, {x = y} + {x <> y}) (deeplist : list (list A)) :
  List.length (utils.flatten self deeplist)
  = list_sum (map (@List.length A) deeplist) /\
  forall x : A,
    count_occ eq_dec (utils.flatten self deeplist) x
    = list_sum (map (fun sublist => count_occ eq_dec sublist x) deeplist).
Proof.
  unfold utils.flatten. split.
  - induction deeplist as [|sub rest IH]; [reflexivity|].
    cbn [flat_map map list_sum]. now rewrite length_app, map_id, IH.
  - intros x. induction deeplist as [|sub rest IH]; [reflexivity|].
    cbn [flat_map map list_sum]. now rewrite count_occ_app, map_id, IH.
Qed.

(** *** Generators *)

Lemma nth_error_update_same (g : nat) (f f' : utils.frame) (h : utils.heap) :
  nth_error h g = Some f -> nth_error (utils.update g f' h) g = Some f'.
Proof.
  revert g; induction h as [|f0 h IH]; intros [|g]; simpl;
    try discriminate; auto.
Qed.

Lemma update_same (g : nat) (f : utils.frame) (h : utils.heap) :
  nth_error h g = Some f -> utils.update g f h = h.
Proof.
  revert g; induction h as [|f0 h IH]; intros [|g]; simpl;
    try discriminate.
  - intros E; injection E as ->. reflexivity.
  - intros E. now rewrite IH.
Qed.

Lemma update_length (g : nat) (f : utils.frame) (h : utils.heap) :
  List.length (utils.update g f h) = List.length h.
Proof.
  revert g; induction h as [|f0 h IH]; intros [|g]; simpl; auto.
Qed.

Lemma next_at (g : nat) (f : utils.frame) (h : utils.heap) :
  nth_error h g = Some f ->
  utils.next g h
  = (fst (utils.resume f), utils.update g (snd (utils.resume f)) h).
Proof.
  intros H. unfold utils.next. rewrite H.
  now destruct (utils.resume f).
Qed.

Lemma next_absent (g : nat) (h : utils.heap) :
  nth_error h g = None -> utils.next g h = (None, h).
Proof. intros H. unfold utils.next. now rewrite H. Qed.

Lemma resume_remaining (f f' : utils.frame) (v : Z) :
  utils.resume f = (Some v, f') -> utils.remaining f' < utils.remaining f.
Proof.
  destruct f as [|n|]; unfold utils.resume, utils.loop, utils.remaining.
  - destruct (Z.ltb_spec 1 10); intros E; inversion E; subst; lia.
  - destruct (Z.ltb_spec (n + 2) 10); intros E; inversion E; subst; lia.
  - discriminate.
Qed.

Lemma next_left (g : nat) (h h' : utils.heap) (v : Z) :
  utils.next g h = (Some v, h') -> utils.left g h' < utils.left g h.
Proof.
  unfold utils.left.
  destruct (nth_error h g) as [f|] eqn:Hg.
  - rewrite (@next_at g f h Hg). destruct (utils.resume f) as [w f'] eqn:Hr.
    cbn [fst snd]. intros E; injection E as -> <-.
    rewrite (@nth_error_update_same g f f' h Hg).
    eapply resume_remaining; eauto.
  - rewrite (@next_absent g h Hg). discriminate.
Qed.

(** Induction along the calls of [next] that [consume] makes. *)
Lemma consume_induction (g : nat) (P : utils.heap -> Prop) :
  (forall h,
      (forall v h', utils.next g h = (Some v, h') -> P h') -> P h) ->
  forall h, P h.
Proof.
  intros Hstep h.
  remember (utils.left g h) as n eqn:Hn.
  revert h Hn. induction n as [n IH] using lt_wf_ind.
  intros h ->. apply Hstep. intros v h' E.
  apply (IH (utils.left g h')); [eapply next_left; eauto|reflexivity].
Qed.

Lemma resume_none (f f' : utils.frame) :
  utils.resume f = (None, f') -> f' = utils.Finished.
Proof.
  destruct f as [|n|]; unfold utils.resume, utils.loop.
  - destruct (1 <? 10)%Z; intros E; inversion E; reflexivity.
  - destruct (n + 2 <? 10)%Z; intros E; inversion E; reflexivity.
  - intros E; inversion E; reflexivity.
Qed.

Lemma consume_finishes (g : nat) :
  forall h,
    nth_error (snd (utils.consume g h)) g = Some utils.Finished \/
    nth_error (snd (utils.consume g h)) g = None.
Proof.
  apply consume_induction with (g := g). intros h IH.
  rewrite consume_unfold.
  destruct (utils.next g h) as [[v|] h'] eqn:E.
  - specialize (IH v h' eq_refl).
    destruct (utils.consume g h') as [vs h'']. exact IH.
  - cbn [snd].
    destruct (nth_error h g) as [f|] eqn:Hg.
    + rewrite (@next_at g f h Hg) in E.
      destruct (utils.resume f) as [w f'] eqn:Hr. cbn [fst snd] in E.
      injection E as -> <-. apply resume_none in Hr. subst f'.
      left. now apply nth_error_update_same with (f := f).
    + rewrite (@next_absent g h Hg) in E. injection E as <-. now right.
Qed.

(** X6: a generator is spent once it has been consumed: [next] on it
    raises [StopIteration] from then on, and consuming it again yields
    nothing and changes nothing.  Only a new call of [gen_nums] starts
    over. *)
Theorem X6_generator_one_shot (g : nat) (h : utils.heap) :
  utils.next g (snd (utils.consume g h)) = (None, snd (utils.consume g h)) /\
  utils.consume g (snd (utils.consume g h)) = ([], snd (utils.consume g h)).
Proof.
  assert (Hn : utils.next g (snd (utils.consume g h))
               = (None, snd (utils.consume g h))).
  { destruct (consume_finishes g h) as [H|H].
    - rewrite (@next_at g utils.Finished _ H). cbn [utils.resume fst snd].
      now rewrite (@update_same g utils.Finished _ H).
    - now apply next_absent. }
  split; [exact Hn|].
  rewrite consume_unfold, Hn. reflexivity.
Qed.

Lemma next_other (g g' : nat) (h : utils.heap) :
  g <> g' -> nth_error (snd (utils.next g h)) g' = nth_error h g'.
Proof.
  intros Hne. unfold utils.next.
  destruct (nth_error h g) as [f|]; [|reflexivity].
  destruct (utils.resume f) as [v f']. cbn [snd].
  apply update_other. congruence.
Qed.

Lemma next_length (g : nat) (h : utils.heap) :
  List.length (snd (utils.next g h)) = List.length h.
Proof.
  unfold utils.next.
  destruct (nth_error h g) as [f|]; [|reflexivity].
  destruct (utils.resume f) as [v f']. cbn [snd]. apply update_length.
Qed.

(** X7: [next] and [list] on one generator leave every other generator in
    the frame it was in, and the set of generators as it was. *)
Theorem X7_generators_independent (g g' : nat) (h : utils.heap) :
  g <> g' ->
  nth_error (snd (utils.next g h)) g' = nth_error h g' /\
  nth_error (snd (utils.consume g h)) g' = nth_error h g' /\
  List.length (snd (utils.next g h)) = List.length h /\
  List.length (snd (utils.consume g h)) = List.length h.
Proof.
  intros Hne.
  split; [now apply next_other|].
  split; [|split; [apply next_length|]].
  - revert h. apply consume_induction with (g := g). intros h IH.
    rewrite consume_unfold.
    destruct (utils.next g h) as [[v|] h'] eqn:E.
    + specialize (IH v h' eq_refl).
      destruct (utils.consume g h') as [vs h'']. cbn [snd] in *.
      rewrite IH. change h' with (snd (Some v, h')). rewrite <- E.
      now apply next_other.
    + cbn [snd]. change h' with (snd (@None Z, h')). rewrite <- E.
      now apply next_other.
  - revert h. apply consume_induction with (g := g). intros h IH.
    rewrite consume_unfold.
    destruct (utils.next g h) as [[v|] h'] eqn:E.
    + specialize (IH v h' eq_refl).
      destruct (utils.consume g h') as [vs h'']. cbn [snd] in *.
      rewrite IH. change h' with (snd (Some v, h')). rewrite <- E.
      apply next_length.
    + cbn [snd]. change h' with (snd (@None Z, h')). rewrite <- E.
      apply next_length.
Qed.

(** Two generators, the first suspended at 3: consuming the second leaves
    the first suspended at 3. *)
Lemma X7_generators_independent_witness :
  nth_error (snd (utils.next 1 [utils.Suspended 3; utils.Created])) 0
  = nth_error [utils.Suspended 3; utils.Created] 0 /\
  nth_error (snd (utils.consume 1 [utils.Suspended 3; utils.Created])) 0
  = nth_error [utils.Suspended 3; utils.Created] 0.
Proof.
  destruct (@X7_generators_independent 1 0
              [utils.Suspended 3%Z; utils.Created] ltac:(discriminate))
    as (H1 & H2 & _).
  split; [exact H1|exact H2].
Defined.

Lemma consume_at (g : nat) (f : utils.frame) (h : utils.heap) :
  nth_error h g = Some f ->
  fst (utils.consume g h)
  = match utils.resume f with
    | (Some v, f') => v :: fst (utils.consume g (utils.update g f' h))
    | (None, _) => []
    end.
Proof.
  intros H. rewrite consume_unfold, (@next_at g f h H).
  destruct (utils.resume f) as [[v|] f']; cbn [fst snd]; [|reflexivity].
  now destruct (utils.consume g (utils.update g f' h)).
Qed.

Lemma consume_suspended (g : nat) (n : Z) :
  In n [1; 3; 5; 7; 9]%Z ->
  forall h,
    nth_error h g = Some (utils.Suspended n) ->
    fst (utils.consume g h) = filter (fun v => (n <? v)%Z) [1; 3; 5; 7; 9]%Z.
Proof.
  assert (H9 : forall h, nth_error h g = Some (utils.Suspended 9) ->
                         fst (utils.consume g h) = []).
  { intros h H. now rewrite (@consume_at g _ h H). }
  assert (Hstep : forall (m : Z) (rest : list Z),
             (m + 2 <? 10)%Z = true ->
             (forall h, nth_error h g = Some (utils.Suspended (m + 2)) ->
                        fst (utils.consume g h) = rest) ->
             forall h, nth_error h g = Some (utils.Suspended m) ->
                       fst (utils.consume g h) = (m + 2)%Z :: rest).
  { intros m rest Hm Hrest h H.
    rewrite (@consume_at g _ h H). cbn [utils.resume]. unfold utils.loop.
    rewrite Hm. f_equal. apply Hrest.
    now apply nth_error_update_same with (f := utils.Suspended m). }
  pose proof (Hstep 7%Z [] eq_refl H9) as H7.
  pose proof (Hstep 5%Z [9%Z] eq_refl H7) as H5.
  pose proof (Hstep 3%Z [7; 9]%Z eq_refl H5) as H3.
  pose proof (Hstep 1%Z [5; 7; 9]%Z eq_refl H3) as H1.
  intros [<-|[<-|[<-|[<-|[<-|[]]]]]] h H.
  - now apply H1.
  - now apply H3.
  - now apply H5.
  - now apply H7.
  - now apply H9.
Qed.

(** X8: a generator made by [gen_nums] resumes where it stopped.  With its
    frame not started, consuming it yields 1, 3, 5, 7, 9; with the frame
    suspended after the value [n], it yields the values of that sequence
    above [n]; finished, it yields nothing.  Every value that [next]
    returns is one of 1, 3, 5, 7, 9, and the frame it leaves is again one
    of these frames. *)
Theorem X8_generator_resumes (g : nat) (h : utils.heap) (f : utils.frame) :
  nth_error h g = Some f ->
  proper f ->
  fst (utils.consume g h)
  = match f with
    | utils.Created => [1; 3; 5; 7; 9]%Z
    | utils.Suspended n => filter (fun v => (n <? v)%Z) [1; 3; 5; 7; 9]%Z
    | utils.Finished => []
    end /\
  forall v h',
    utils.next g h = (Some v, h') ->
    In v [1; 3; 5; 7; 9]%Z /\
    (match f with
     | utils.Created => v = 1%Z
     | utils.Suspended n => v = (n + 2)%Z
     | utils.Finished => False
     end) /\
    nth_error h' g = Some (utils.Suspended v) /\
    proper (utils.Suspended v).
Proof.
  intros Hg Hp. split.
  - destruct f as [|n|].
    + rewrite (@consume_at g _ h Hg). cbn [utils.resume]. unfold utils.loop.
      change (1 <? 10)%Z with true. cbv iota. f_equal.
      apply (@consume_suspended g 1%Z); [simpl; auto|].
      now apply nth_error_update_same with (f := utils.Created).
    + now apply consume_suspended.
    + now rewrite (@consume_at g _ h Hg).
  - intros v h'. rewrite (@next_at g f h Hg).
    destruct f as [|n|]; cbn [utils.resume]; unfold utils.loop.
    + change (1 <? 10)%Z with true. cbn [fst snd].
      intros E; injection E as <- <-.
      split; [simpl; auto|]. split; [reflexivity|].
      split; [|simpl; auto].
      now apply nth_error_update_same with (f := utils.Created).
    + simpl in Hp.
      destruct (n + 2 <? 10)%Z eqn:Hn; cbn [fst snd]; [|discriminate].
      intros E; injection E as <- <-.
      assert (Hv : In (n + 2)%Z [1; 3; 5; 7; 9]%Z).
      { destruct Hp as [<-|[<-|[<-|[<-|[<-|[]]]]]];
          try (vm_compute in Hn; discriminate); simpl; auto 10. }
      split; [exact Hv|]. split; [reflexivity|].
      split; [|exact Hv].
      now apply nth_error_update_same with (f := utils.Suspended n).
    + discriminate.
Qed.

(** A generator that has yielded 1 and 3 yields 5, 7, 9. *)
Lemma X8_generator_resumes_witness :
  fst (utils.consume 0 [utils.Suspended 3])
  = filter (fun v => (3 <? v)%Z) [1; 3; 5; 7; 9]%Z.
Proof.
  apply (proj1 (@X8_generator_resumes 0 [utils.Suspended 3%Z]
                  (utils.Suspended 3%Z) eq_refl
                  (or_intror (or_introl eq_refl)))).
Defined.

(* ================================================================= *)
(** ** More of app.py: what the regrouping keeps *)

Lemma regroup_loop_NoDup (R : list (string * list entry)) :
  forall d0 d : pydict (list string),
    NoDup (dict_keys d0) ->
    rfold (fun by_region (kv : string * list entry) =>
             let (key, value) := kv in
             match nth_error value 0 with
             | Some first => Ok (dict_set key (item2 first) by_region)
             | None => Raise IndexError
             end) R d0 = Ok d ->
    NoDup (dict_keys d).
Proof.
  induction R as [|[k value] R IH]; intros d0 d Hnd; cbn [rfold].
  - intros E; injection E as <-. assumption.
  - destruct (nth_error value 0) as [first|]; cbn [rbind]; [|discriminate].
    apply IH. now apply dict_keys_set_NoDup.
Qed.

Lemma last_occurrence {V} (g : string) (R : list (string * V)) :
  (exists v, In (g, v) R) ->
  exists R1 v R2, R = R1 ++ (g, v) :: R2 /\ Forall (fun kv => fst kv <> g) R2.
Proof.
  induction R as [|[k w] R IH]; intros [v Hin]; [destruct Hin|].
  destruct (in_dec (fun a b => string_dec a b) g (map fst R)) as [Hg|Hg].
  - apply in_map_iff in Hg. destruct Hg as ([k' v'] & Hk & Hin').
    simpl in Hk. subst k'.
    destruct (IH (ex_intro _ v' Hin')) as (R1 & v1 & R2 & -> & Hno).
    exists ((k, w) :: R1), v1, R2. split; [reflexivity|assumption].
  - destruct Hin as [E|Hin].
    + injection E as -> ->. exists [], v, R. split; [reflexivity|].
      apply Forall_forall. intros [k' v'] Hin' Hk. simpl in Hk. subst k'.
      apply Hg. apply in_map_iff. now exists (g, v').
    + exfalso. apply Hg. apply in_map_iff. now exists (g, v).
Qed.

Lemma entry_eta (x : entry) : x = (item0 x, item1 x, item2 x).
Proof. now destruct x as [[r g] v]. Qed.

(** The heads of the runs of the sorted groups are tuples of the input,
    under the group name of their run. *)
Lemma run_head_in_groups (groups : list entry) R1 g x same R2 :
  groupby item1 (sorted item0 groups) = R1 ++ (g, x :: same) :: R2 ->
  In x groups /\ item1 x = g.
Proof.
  intros E. split.
  - destruct (sorted_stable item0 groups) as (Hperm & _).
    apply (Permutation_in x (Permutation_sym Hperm)).
    rewrite <- (groupby_concat item1 (sorted item0 groups)), E.
    rewrite map_app, concat_app. apply in_or_app. right. simpl. now left.
  - pose proof (groupby_runs item1 (sorted item0 groups)) as Hruns.
    rewrite E in Hruns. apply Forall_app in Hruns. destruct Hruns as [_ Hruns].
    inversion Hruns as [|? ? [_ Hall] _]; subst. simpl in Hall.
    now inversion Hall.
Qed.

(** Every tuple of the input is in a run under its group name. *)
Lemma group_has_run (groups : list entry) (x : entry) :
  In x groups ->
  exists run, In (item1 x, run) (groupby item1 (sorted item0 groups)).
Proof.
  intros Hin.
  destruct (sorted_stable item0 groups) as (Hperm & _).
  apply (Permutation_in x Hperm) in Hin.
  rewrite <- (groupby_concat item1 (sorted item0 groups)) in Hin.
  apply in_concat in Hin. destruct Hin as (run & Hrun & Hx).
  apply in_map_iff in Hrun. destruct Hrun as ([k run'] & Hk & Hin).
  simpl in Hk. subst run'.
  pose proof (groupby_runs item1 (sorted item0 groups)) as Hruns.
  rewrite Forall_forall in Hruns. destruct (Hruns _ Hin) as [_ Hall].
  simpl in Hall. rewrite Forall_forall in Hall.
  rewrite (Hall x Hx). now exists run.
Qed.

Lemma regroup_spec (groups : list entry) :
  exists d,
    regroup groups = Ok d /\
    NoDup (dict_keys d) /\
    forall g v,
      dict_get g d = Some v <->
      exists R1 x same R2,
        groupby item1 (sorted item0 groups) = R1 ++ (g, x :: same) :: R2 /\
        item2 x = v /\
        Forall (fun kv => fst kv <> g) R2.
Proof.
  unfold regroup.
  destruct (@regroup_loop (groupby item1 (sorted item0 groups)))
    with (d0 := @nil (string * list string)) as (d & Hd & Hiff).
  - eapply Forall_impl; [|apply groupby_runs]. now intros kv [Hne _].
  - exists d. split; [assumption|]. split.
    + eapply regroup_loop_NoDup; [|exact Hd]. constructor.
    + intros g v. rewrite Hiff. split.
      * intros [H|[_ H]]; [assumption|discriminate].
      * intros H; now left.
Qed.

(** The last run of the group name of a tuple of the input. *)
Lemma last_run_of (groups : list entry) (x : entry) :
  In x groups ->
  exists R1 x' same R2,
    groupby item1 (sorted item0 groups)
    = R1 ++ (item1 x, x' :: same) :: R2 /\
    Forall (fun kv => fst kv <> item1 x) R2.
Proof.
  intros Hin.
  destruct (group_has_run groups x Hin) as [run Hrun].
  destruct (@last_occurrence _ (item1 x)
              (groupby item1 (sorted item0 groups))
              (ex_intro _ run Hrun))
    as (R1 & run' & R2 & E & Hno).
  pose proof (groupby_runs item1 (sorted item0 groups)) as Hruns.
  rewrite E in Hruns. apply Forall_app in Hruns. destruct Hruns as [_ Hruns].
  inversion Hruns as [|? ? [Hne _] _]; subst. simpl in Hne.
  destruct run' as [|x' same]; [contradiction|].
  now exists R1, x', same, R2.
Qed.

(** X9: the regrouping never raises (the index 0 into a run is always in
    range), and the keys of its result are the group names of the tuples,
    each once: every group name that occurs is a key, and nothing else is,
    a region in particular only if it is also a group name. *)
Theorem X9_regroup_keys (groups : list entry) :
  exists d,
    regroup groups = Ok d /\
    NoDup (dict_keys d) /\
    forall g, In g (dict_keys d) <-> In g (map item1 groups).
Proof.
  destruct (regroup_spec groups) as (d & Hd & Hnd & Hiff).
  exists d. split; [assumption|]. split; [assumption|].
  intros g. rewrite dict_get_In_keys. split.
  - intros [v Hv]. apply Hiff in Hv.
    destruct Hv as (R1 & x & same & R2 & E & _ & _).
    apply run_head_in_groups in E. destruct E as [Hin <-].
    now apply in_map.
  - intros Hg. apply in_map_iff in Hg. destruct Hg as (x & <- & Hin).
    destruct (last_run_of groups x Hin) as (R1 & x' & same & R2 & E & Hno).
    exists (item2 x'). apply Hiff. now exists R1, x', same, R2.
Qed.

(** X10: a value of the result is the instance list of one tuple of the
    input that has the key as its group name; lists of different tuples
    are never merged. *)
Theorem X10_regroup_values (groups : list entry) (d : pydict (list string))
  (g : string) (v : list string) :
  regroup groups = Ok d ->
  dict_get g d = Some v ->
  exists region, In (region, g, v) groups.
Proof.
  intros Hd Hv.
  destruct (regroup_spec groups) as (d' & Hd' & _ & Hiff).
  rewrite Hd in Hd'. injection Hd' as <-.
  apply Hiff in Hv. destruct Hv as (R1 & x & same & R2 & E & <- & _).
  apply run_head_in_groups in E. destruct E as [Hin <-].
  exists (item0 x). now rewrite <- entry_eta.
Qed.

(** On the example of the specification, at the key "g1". *)
Lemma X10_regroup_values_witness :
  exists region, In (region, "g1", ["i-1"]) collapse_example.
Proof.
  apply (@X10_regroup_values collapse_example
           [("g1", ["i-1"]); ("g2", ["i-2"])] "g1" ["i-1"]);
    reflexivity.
Defined.

Lemma NoDup_map_inj {A B} (f : A -> B) (l : list A) (x y : A) :
  NoDup (map f l) -> In x l -> In y l -> f x = f y -> x = y.
Proof.
  induction l as [|a l IH]; simpl; intros Hnd Hx Hy E; [destruct Hx|].
  inversion Hnd as [|? ? Hnot Hnd']; subst.
  destruct Hx as [->|Hx], Hy as [->|Hy].
  - reflexivity.
  - exfalso. apply Hnot. rewrite E. now apply in_map.
  - exfalso. apply Hnot. rewrite <- E. now apply in_map.
  - now apply IH.
Qed.

(** X11: when no two tuples have the same group name, nothing is dropped:
    the result maps a group name to an instance list exactly when the
    input has a tuple with that group name and that list, whatever the
    regions are. *)
Theorem X11_regroup_distinct_groups (groups : list entry)
  (d : pydict (list string)) :
  NoDup (map item1 groups) ->
  regroup groups = Ok d ->
  forall g v,
    dict_get g d = Some v <-> exists region, In (region, g, v) groups.
Proof.
  intros Hnd Hd g v.
  destruct (regroup_spec groups) as (d' & Hd' & _ & Hiff).
  rewrite Hd in Hd'. injection Hd' as <-.
  rewrite Hiff. split.
  - intros (R1 & x & same & R2 & E & <- & _).
    apply run_head_in_groups in E. destruct E as [Hin <-].
    exists (item0 x). now rewrite <- entry_eta.
  - intros [region Hin].
    destruct (last_run_of groups (region, g, v) Hin)
      as (R1 & x' & same & R2 & E & Hno).
    cbn [item1 fst snd] in E, Hno.
    exists R1, x', same, R2. split; [exact E|]. split; [|exact Hno].
    destruct (run_head_in_groups groups _ _ _ _ _ E) as [Hin' Hg'].
    assert (Ex : x' = (region, g, v)).
    { apply (NoDup_map_inj item1 groups); auto. }
    now rewrite Ex.
Qed.

(** No two tuples share a group name: both are in the result. *)
Lemma X11_regroup_distinct_groups_witness :
  dict_get "g1" [("g1", ["i-1"]); ("g2", ["i-2"])] = Some ["i-1"] <->
  exists region,
    In (region, "g1", ["i-1"])
       [("us-west", "g2", ["i-2"]); ("us-east", "g1", ["i-1"])].
Proof.
  apply (@X11_regroup_distinct_groups
           [("us-west", "g2", ["i-2"]); ("us-east", "g1", ["i-1"])]
           [("g1", ["i-1"]); ("g2", ["i-2"])]).
  - repeat constructor; simpl; intuition discriminate.
  - reflexivity.
Defined.

(* ================================================================= *)
(** ** More of app.py: the extraction of the server groups *)

Lemma inner_loop_rmap (elements : list ServerGroup.t) :
  forall groups : list entry,
    rfold (fun groups element =>
             rbind (App.extract element) (fun x => Ok (groups ++ [x])))
          elements groups
    = rbind (rmap App.extract elements) (fun es => Ok (groups ++ es)).
Proof.
  induction elements as [|el els IH]; intros groups; cbn [rfold rmap].
  - cbn [rbind]. now rewrite app_nil_r.
  - destruct (App.extract el) as [x|e]; cbn [rbind]; [|reflexivity].
    rewrite IH.
    destruct (rmap App.extract els) as [es|e]; cbn [rbind]; [|reflexivity].
    now rewrite <- app_assoc.
Qed.

Lemma dict_get_NoDup {V} (d : pydict V) (k : string) (v : V) :
  NoDup (dict_keys d) -> In (k, v) d -> dict_get k d = Some v.
Proof.
  unfold dict_keys.
  induction d as [|[k0 v0] d IH]; simpl; intros Hnd Hin; [destruct Hin|].
  inversion Hnd as [|? ? Hnot Hnd']; subst.
  destruct Hin as [E|Hin].
  - injection E as -> ->. now rewrite String.eqb_refl.
  - destruct (String.eqb_spec k0 k) as [->|Hne]; [|now apply IH].
    exfalso. apply Hnot. apply in_map_iff. now exists (k, v).
Qed.

Lemma outer_loop_flat (details : pydict ClusterDetail.t)
  (items : list (string * ClusterDetail.t)) :
  (forall kv, In kv items -> dict_get (fst kv) details = Some (snd kv)) ->
  forall acc groups,
    rfold (fun groups cluster =>
             rbind (getitem details cluster) (fun detail =>
             rbind (getfield "serverGroups" (ClusterDetail.serverGroups detail))
                   (fun elements =>
             rfold (fun groups element =>
                      rbind (App.extract element) (fun x => Ok (groups ++ [x])))
                   elements groups)))
          (map fst items) acc = Ok groups
    <-> exists ess,
          Forall2 (fun kv es => detail_entries (snd kv) = Ok es) items ess /\
          groups = acc ++ concat ess.
Proof.
  induction items as [|[k detail] items IH]; intros Hitems acc groups;
    cbn [map rfold].
  - split.
    + intros E; injection E as <-. exists []. split; [constructor|].
      simpl. now rewrite app_nil_r.
    + intros (ess & HF & ->). inversion HF; subst. simpl.
      now rewrite app_nil_r.
  - assert (Hk : getitem details k = Ok detail).
    { pose proof (Hitems (k, detail) (or_introl eq_refl)) as Hk'.
      cbn [fst snd] in Hk'. unfold getitem. now rewrite Hk'. }
    cbn [fst]. rewrite Hk. cbn [rbind].
    assert (Hbody :
      rbind (getfield "serverGroups" (ClusterDetail.serverGroups detail))
            (fun elements =>
               rfold (fun groups element =>
                        rbind (App.extract element)
                              (fun x => Ok (groups ++ [x])))
                     elements acc)
      = rbind (detail_entries detail) (fun es => Ok (acc ++ es))).
    { unfold detail_entries.
      destruct (getfield "serverGroups" _) as [elements|e]; cbn [rbind];
        [|reflexivity].
      apply inner_loop_rmap. }
    rewrite Hbody.
    destruct (detail_entries detail) as [es|e] eqn:He; cbn [rbind].
    + rewrite IH by (intros kv Hin; apply Hitems; now right).
      split.
      * intros (ess & HF & ->). exists (es :: ess).
        split; [now constructor|]. simpl. now rewrite app_assoc.
      * intros (ess & HF & ->). inversion HF as [|? es' ? ess' He' HF']; subst.
        cbn [snd] in He'. rewrite He in He'. injection He' as <-.
        exists ess'. split; [assumption|]. simpl. now rewrite app_assoc.
    + split; [discriminate|].
      intros (ess & HF & _). inversion HF as [|? es' ? ess' He' HF']; subst.
      cbn [snd] in He'. congruence.
Qed.

Lemma groups_of_flat (details : pydict ClusterDetail.t) (groups : list entry) :
  NoDup (dict_keys details) ->
  groups_of details = Ok groups
  <-> exists ess,
        Forall2 (fun kv es => detail_entries (snd kv) = Ok es) details ess /\
        groups = concat ess.
Proof.
  intros Hnd. unfold groups_of, dict_keys.
  rewrite (@outer_loop_flat details details).
  - reflexivity.
  - intros [k v] Hin. now apply dict_get_NoDup.
Qed.

Lemma servergroups_from_details (inventory : Inventory) (st : App.state)
  details :
  App.__servergroups (App.self st) = None ->
  App.__clusterdetails (App.self st) = Some details ->
  App.servergroups inventory st
  = match groups_of details with
    | Ok groups =>
        (Ok groups, snd (App.setattr (App.with___servergroups groups) st))
    | Raise e => (Raise e, st)
    end.
Proof.
  intros H3 H2.
  rewrite servergroups_unfold, H3, (clusterdetails_cached _ _ H2).
  now destruct (groups_of details).
Qed.

(** X12: with the cluster details cached, [servergroups] returns [groups]
    exactly when every cluster's payload has its [serverGroups] and every
    element extracts to an entry, and [groups] is then the entries of the
    clusters one after the other, clusters in the order of the dict and
    server groups in the order of the payload. *)
Theorem X12_servergroups_flat (inventory : Inventory) (st : App.state)
  (details : pydict ClusterDetail.t) (groups : list entry) :
  App.__servergroups (App.self st) = None ->
  App.__clusterdetails (App.self st) = Some details ->
  NoDup (dict_keys details) ->
  fst (App.servergroups inventory st) = Ok groups
  <-> exists ess,
        Forall2 (fun kv es => detail_entries (snd kv) = Ok es) details ess /\
        groups = concat ess.
Proof.
  intros H3 H2 Hnd.
  rewrite (@servergroups_from_details inventory st details H3 H2).
  rewrite <- (@groups_of_flat details groups Hnd).
  destruct (groups_of details) as [g|e]; cbn [fst]; reflexivity.
Qed.

(** The end-to-end scenario with the details cached. *)
Lemma X12_servergroups_flat_witness :
  fst (App.servergroups checkout_inventory
         {| App.self :=
              App.with___clusterdetails
                [("checkout-test-v001", checkout_detail)]
                (App.__init__ "checkout" test_account);
            App.sent := [] |})
  = Ok [("us-east-1", "checkout-test-v001", ["i-aaa"; "i-bbb"])]
  <-> exists ess,
        Forall2 (fun kv es => detail_entries (snd kv) = Ok es)
                [("checkout-test-v001", checkout_detail)] ess /\
        [("us-east-1", "checkout-test-v001", ["i-aaa"; "i-bbb"])]
        = concat ess.
Proof.
  apply X12_servergroups_flat.
  - reflexivity.
  - reflexivity.
  - repeat constructor. intros [].
Defined.

Lemma rfold_error_in {A B} (P : exn -> Prop) (body : B -> A -> result B)
  (xs : list A) :
  (forall acc x e, In x xs -> body acc x = Raise e -> P e) ->
  forall acc e, rfold body xs acc = Raise e -> P e.
Proof.
  induction xs as [|x xs IH]; intros Hbody acc e; cbn [rfold].
  - discriminate.
  - destruct (body acc x) as [acc'|e'] eqn:Hb; cbn [rbind].
    + apply IH. intros acc0 x0 e0 Hin. apply Hbody. now right.
    + intros E; injection E as <-. eapply Hbody; eauto. now left.
Qed.

Lemma getfield_key_error {V} k (field : option V) e :
  getfield k field = Raise e -> e = KeyError k.
Proof. destruct field; [discriminate|]. now intros E; injection E as <-. Qed.

Lemma extract_key_error element e :
  App.extract element = Raise e ->
  exists k, In k payload_keys /\ e = KeyError k.
Proof.
  unfold App.extract, payload_keys.
  destruct (getfield "name" _) as [group|e1] eqn:H1; cbn [rbind].
  2:{ intros E; injection E as <-. apply getfield_key_error in H1.
      exists "name". simpl. auto. }
  destruct (getfield "region" _) as [region|e2] eqn:H2; cbn [rbind].
  2:{ intros E; injection E as <-. apply getfield_key_error in H2.
      exists "region". simpl. auto. }
  destruct (getfield "instances" _) as [insts|e3] eqn:H3; cbn [rbind].
  2:{ intros E; injection E as <-. apply getfield_key_error in H3.
      exists "instances". simpl. auto 6. }
  destruct (rmap _ insts) as [instances|e4] eqn:H4; cbn [rbind];
    [discriminate|].
  intros E; injection E as <-. revert H4.
  apply rmap_error
    with (P := fun e => exists k,
                 In k ["serverGroups"; "name"; "region"; "instances";
                       "instanceId"] /\ e = KeyError k).
  intros x e' Hx. apply getfield_key_error in Hx.
  exists "instanceId". simpl. auto 8.
Qed.

Lemma groups_of_key_error details e :
  groups_of details = Raise e ->
  exists k, In k payload_keys /\ e = KeyError k.
Proof.
  unfold groups_of.
  apply rfold_error_in
    with (P := fun e => exists k, In k payload_keys /\ e = KeyError k).
  intros acc cluster e' Hin.
  apply dict_get_In_keys in Hin. destruct Hin as [detail Hd].
  unfold getitem. rewrite Hd. cbn [rbind].
  destruct (getfield "serverGroups" _) as [elements|e2] eqn:H2; cbn [rbind].
  2:{ intros E; injection E as <-. apply getfield_key_error in H2.
      exists "serverGroups". split; [simpl; auto|assumption]. }
  apply rfold_error
    with (P := fun e => exists k, In k payload_keys /\ e = KeyError k).
  intros acc' element e''.
  destruct (App.extract element) as [x|e3] eqn:H3; cbn [rbind];
    [discriminate|].
  intros E; injection E as <-. eapply extract_key_error; eauto.
Qed.

(** X13: with the cluster details cached, [servergroups] can only fail
    with the [KeyError] of one of the keys "serverGroups", "name",
    "region", "instances", "instanceId" that a payload lacks; the lookup
    of a cluster in the details never fails.  The failure changes
    nothing: no request is sent and no attribute is set. *)
Theorem X13_servergroups_errors (inventory : Inventory) (st st' : App.state)
  (details : pydict ClusterDetail.t) (e : exn) :
  App.__clusterdetails (App.self st) = Some details ->
  App.servergroups inventory st = (Raise e, st') ->
  st' = st /\ exists k, In k payload_keys /\ e = KeyError k.
Proof.
  intros H2.
  destruct (App.__servergroups (App.self st)) as [groups|] eqn:H3.
  { rewrite (servergroups_cached _ _ H3). discriminate. }
  rewrite (@servergroups_from_details inventory st details H3 H2).
  destruct (groups_of details) as [groups|e'] eqn:Hg; [discriminate|].
  intros E; injection E as <- <-.
  split; [reflexivity|]. eapply groups_of_key_error; eauto.
Qed.

(** A payload without "serverGroups". *)
Lemma X13_servergroups_errors_witness :
  exists k, In k payload_keys /\ KeyError "serverGroups" = KeyError k.
Proof.
  apply (@X13_servergroups_errors checkout_inventory
           {| App.self :=
                App.with___clusterdetails
                  [("c1", {| ClusterDetail.serverGroups := None |})]
                  (App.__init__ "checkout" test_account);
              App.sent := [] |}
           {| App.self :=
                App.with___clusterdetails
                  [("c1", {| ClusterDetail.serverGroups := None |})]
                  (App.__init__ "checkout" test_account);
              App.sent := [] |}
           [("c1", {| ClusterDetail.serverGroups := None |})]
           (KeyError "serverGroups") eq_refl eq_refl).
Defined.

(* ================================================================= *)
(** ** More of app.py: requests and failures along the pipeline *)

(** X14: the last two stages are derived locally.  With the cluster
    details cached, a read of [servergroups] or of [instances_by_region],
    whether it returns or raises, sends no request and leaves the cached
    cluster names and cluster details as they are. *)
Theorem X14_derived_stages_local (inventory : Inventory) (p : App.property)
  (st st' : App.state) (details : pydict ClusterDetail.t)
  (r : result App.value) :
  App.__clusterdetails (App.self st) = Some details ->
  p = App.Servergroups \/ p = App.Instances_by_region ->
  App.access inventory p st = (r, st') ->
  App.sent st' = App.sent st /\
  App.__clusternames (App.self st') = App.__clusternames (App.self st) /\
  App.__clusterdetails (App.self st') = Some details.
Proof.
  intros H2 Hp.
  assert (H3 : forall r1 st1,
             App.servergroups inventory st = (r1, st1) ->
             App.sent st1 = App.sent st /\
             App.__clusternames (App.self st1)
             = App.__clusternames (App.self st) /\
             App.__clusterdetails (App.self st1) = Some details).
  { intros r1 st1.
    destruct (App.__servergroups (App.self st)) as [groups|] eqn:H3.
    - rewrite (servergroups_cached _ _ H3). intros E; injection E as <- <-.
      auto.
    - rewrite (@servergroups_from_details inventory st details H3 H2).
      destruct (groups_of details); intros E; injection E as <- <-; auto. }
  rewrite access_eq. destruct Hp as [-> | ->].
  - destruct (App.servergroups inventory st) as [[v|e] st1] eqn:E;
      intros E'; injection E' as <- <-; eapply H3; eauto.
  - rewrite instances_by_region_eq.
    destruct (App.__instances_by_region (App.self st)) as [b|].
    { intros E'; injection E' as <- <-. auto. }
    destruct (App.servergroups inventory st) as [[groups|e] st1] eqn:E.
    + destruct (H3 _ _ eq_refl) as (S1 & N1 & D1).
      destruct (regroup groups); intros E'; injection E' as <- <-;
        cbn; auto.
    + destruct (H3 _ _ eq_refl) as (S1 & N1 & D1).
      intros E'; injection E' as <- <-. auto.
Qed.

(** The end-to-end scenario with the details cached and two requests sent
    before: [instances_by_region] adds none. *)
Lemma X14_derived_stages_local_witness :
  App.sent
    (snd (App.access checkout_inventory App.Instances_by_region
            {| App.self :=
                 App.with___clusterdetails
                   [("checkout-test-v001", checkout_detail)]
                   (App.__init__ "checkout" test_account);
               App.sent := ["u1"; "u2"] |}))
  = ["u1"; "u2"].
Proof.
  apply (@X14_derived_stages_local checkout_inventory App.Instances_by_region
           {| App.self :=
                App.with___clusterdetails
                  [("checkout-test-v001", checkout_detail)]
                  (App.__init__ "checkout" test_account);
              App.sent := ["u1"; "u2"] |}
           _ [("checkout-test-v001", checkout_detail)]
           (fst (App.access checkout_inventory App.Instances_by_region
                   {| App.self :=
                        App.with___clusterdetails
                          [("checkout-test-v001", checkout_detail)]
                          (App.__init__ "checkout" test_account);
                      App.sent := ["u1"; "u2"] |}))
           eq_refl (or_intror eq_refl) eq_refl).
Defined.

(** X15: on a fresh instance, when the read of [clusternames] fails, the
    read of each of the four properties fails in the same way: with the
    same error, after the one listing request, and with no attribute
    set. *)
Theorem X15_failed_listing_fails_all (inventory : Inventory)
  (p : App.property) (name : string) (account : Account.t)
  (sent : list string) (e : exn) (st1 : App.state) :
  App.clusternames inventory (fresh name account sent) = (Raise e, st1) ->
  App.access inventory p (fresh name account sent) = (Raise e, st1) /\
  st1 = {| App.self := App.__init__ name account;
           App.sent := sent ++ [CLUSTERS_URL name] |}.
Proof.
  intros E1. split.
  - rewrite access_eq.
    destruct p;
      rewrite ?instances_by_region_eq, ?servergroups_unfold,
        ?clusterdetails_eq;
      cbn [fresh App.self App.__init__ App.__instances_by_region
           App.__servergroups App.__clusterdetails];
      fold (fresh name account sent); rewrite E1; reflexivity.
  - rewrite clusternames_eq in E1.
    cbn [fresh App.self App.__init__ App.__clusternames App.name
         App.account App.sent] in E1.
    unfold listed in E1. cbn [App.self App.sent App.name] in E1.
    destruct (clusters_endpoint inventory sent (CLUSTERS_URL name))
      as [response|e1]; [|now injection E1 as <- <-].
    destruct (json response) as [body|e2]; [|now injection E1 as <- <-].
    destruct (dict_get (Account.name account) body) as [names|];
      [discriminate|now injection E1 as <- <-].
Qed.

(** An inventory that is down: the direct read raises its error. *)
Lemma X15_failed_listing_fails_all_witness :
  App.access
    {| clusters_endpoint := fun _ _ => Raise (RequestException "down");
       clusterdetails_endpoint := fun _ _ => Raise (RequestException "down") |}
    App.Instances_by_region (fresh "checkout" test_account [])
  = (Raise (RequestException "down"),
     {| App.self := App.__init__ "checkout" test_account;
        App.sent := [CLUSTERS_URL "checkout"] |}).
Proof.
  apply (proj1 (@X15_failed_listing_fails_all
                  {| clusters_endpoint :=
                       fun _ _ => Raise (RequestException "down");
                     clusterdetails_endpoint :=
                       fun _ _ => Raise (RequestException "down") |}
                  App.Instances_by_region "checkout" test_account []
                  (RequestException "down") _ eq_refl)).
Defined.

(** X16: when the listing of the application has no entry for the name of
    the account, a read of any of the four properties on a fresh instance
    raises the [KeyError] of the account name, after the one listing
    request and with nothing cached. *)
Theorem X16_account_not_listed (inventory : Inventory) (p : App.property)
  (name : string) (account : Account.t) (sent : list string)
  (response : Response (pydict (list string)))
  (body : pydict (list string)) :
  clusters_endpoint inventory sent (CLUSTERS_URL name) = Ok response ->
  json response = Ok body ->
  dict_get (Account.name account) body = None ->
  App.access inventory p (fresh name account sent)
  = (Raise (KeyError (Account.name account)),
     {| App.self := App.__init__ name account;
        App.sent := sent ++ [CLUSTERS_URL name] |}).
Proof.
  intros Hc Hj Hb.
  assert (E1 : App.clusternames inventory (fresh name account sent)
               = (Raise (KeyError (Account.name account)),
                  {| App.self := App.__init__ name account;
                     App.sent := sent ++ [CLUSTERS_URL name] |})).
  { rewrite clusternames_eq.
    cbn [fresh App.self App.__init__ App.__clusternames App.name
         App.account App.sent].
    now rewrite Hc, Hj, Hb. }
  rewrite access_eq.
  destruct p;
    rewrite ?instances_by_region_eq, ?servergroups_unfold,
      ?clusterdetails_eq;
    cbn [fresh App.self App.__init__ App.__instances_by_region
         App.__servergroups App.__clusterdetails];
    fold (fresh name account sent); rewrite E1; reflexivity.
Qed.

(** The end-to-end inventory lists the account "test" only: a read for
    the account "prod" raises KeyError('prod'). *)
Lemma X16_account_not_listed_witness :
  App.access checkout_inventory App.Instances_by_region
    (fresh "checkout" {| Account.name := "prod" |} [])
  = (Raise (KeyError "prod"),
     {| App.self := App.__init__ "checkout" {| Account.name := "prod" |};
        App.sent := [] ++ [CLUSTERS_URL "checkout"] |}).
Proof.
  apply (@X16_account_not_listed checkout_inventory App.Instances_by_region
           "checkout" {| Account.name := "prod" |} []
           {| json := Ok [("test", ["checkout-test-v001"])] |}
           [("test", ["checkout-test-v001"])]);
    reflexivity.
Defined.

Lemma fetch_stops (inventory : Inventory) (application account : string)
  (c : string) (after : list string) (e : exn) (before : list string) :
  forall d0 st,
    (forall b1 b b2,
        before = b1 ++ b :: b2 ->
        exists response body,
          clusterdetails_endpoint inventory
            (App.sent st ++ map (CLUSTERDETAILS_URL application account) b1)
            (CLUSTERDETAILS_URL application account b) = Ok response /\
          json response = Ok body) ->
    (clusterdetails_endpoint inventory
       (App.sent st ++ map (CLUSTERDETAILS_URL application account) before)
       (CLUSTERDETAILS_URL application account c) = Raise e \/
     exists response,
       clusterdetails_endpoint inventory
         (App.sent st ++ map (CLUSTERDETAILS_URL application account) before)
         (CLUSTERDETAILS_URL application account c) = Ok response /\
       json response = Raise e) ->
    fetch inventory application account (before ++ c :: after) d0 st
    = (Raise e,
       {| App.self := App.self st;
          App.sent :=
            App.sent st
            ++ map (CLUSTERDETAILS_URL application account) (before ++ [c]) |}).
Proof.
  induction before as [|b before IH]; intros d0 st Hok Hfail.
  - cbn [app map] in *. rewrite app_nil_r in Hfail.
    rewrite fetch_cons. cbv zeta.
    destruct Hfail as [-> | (response & -> & ->)]; reflexivity.
  - cbn [app]. rewrite fetch_cons. cbv zeta.
    destruct (Hok [] b before eq_refl) as (response & body & Hc & Hj).
    cbn [map] in Hc. rewrite app_nil_r in Hc. rewrite Hc, Hj.
    rewrite IH.
    + cbn [App.self App.sent map]. now rewrite <- app_assoc.
    + intros b1 b' b2 E. cbn [App.sent].
      destruct (Hok (b :: b1) b' b2) as (rsp & bd & H1 & H2).
      { now rewrite E. }
      exists rsp, bd. cbn [map] in H1.
      now rewrite <- app_assoc.
    + cbn [App.sent]. cbn [map] in Hfail.
      now rewrite <- app_assoc.
Qed.

(** X17: [clusterdetails] stops at the first fetch that fails.  With the
    names [before ++ c :: after] cached, when the fetches for [before]
    return decodable responses and the fetch for [c] raises [e], or its
    response does not decode and raises [e], the read raises [e]; the
    requests sent are those for [before] and for [c], none for [after];
    and the instance is as it was, the bodies fetched so far are not
    kept. *)
Theorem X17_fetch_stops_at_failure (inventory : Inventory) (st : App.state)
  (before after : list string) (c : string) (e : exn) :
  let url := CLUSTERDETAILS_URL (App.name (App.self st))
               (Account.name (App.account (App.self st))) in
  App.__clusterdetails (App.self st) = None ->
  App.__clusternames (App.self st) = Some (before ++ c :: after) ->
  (forall b1 b b2,
      before = b1 ++ b :: b2 ->
      exists response body,
        clusterdetails_endpoint inventory (App.sent st ++ map url b1) (url b)
        = Ok response /\
        json response = Ok body) ->
  (clusterdetails_endpoint inventory (App.sent st ++ map url before) (url c)
   = Raise e \/
   exists response,
     clusterdetails_endpoint inventory (App.sent st ++ map url before) (url c)
     = Ok response /\
     json response = Raise e) ->
  App.clusterdetails inventory st
  = (Raise e,
     {| App.self := App.self st;
        App.sent := App.sent st ++ map url (before ++ [c]) |}).
Proof.
  intros url H2 H1 Hok Hfail.
  rewrite clusterdetails_eq, H2, (clusternames_cached _ _ H1).
  unfold url in *.
  now rewrite (@fetch_stops inventory _ _ c after e before [] st Hok Hfail).
Qed.

(** Two clusters cached, every detail request refused: the first fetch
    fails and the second cluster is not requested. *)
Lemma X17_fetch_stops_at_failure_witness :
  App.clusterdetails refusing_inventory
    {| App.self :=
         App.with___clusternames ["c1"; "c2"]
           (App.__init__ "checkout" test_account);
       App.sent := [] |}
  = (Raise (RequestException "connection refused"),
     {| App.self :=
          App.with___clusternames ["c1"; "c2"]
            (App.__init__ "checkout" test_account);
        App.sent :=
          [] ++ map (CLUSTERDETAILS_URL "checkout" "test") ([] ++ ["c1"]) |}).
Proof.
  apply (@X17_fetch_stops_at_failure refusing_inventory
           {| App.self :=
                App.with___clusternames ["c1"; "c2"]
                  (App.__init__ "checkout" test_account);
              App.sent := [] |}
           [] ["c2"] "c1" (RequestException "connection refused")).
  - reflexivity.
  - reflexivity.
  - intros [|? ?] ? ? E; discriminate E.
  - left. reflexivity.
Defined.

(** X18: an account with no cluster.  When the listing maps the account to
    the empty list, the direct read of [instances_by_region] on a fresh
    instance returns the empty mapping after the one listing request, and
    all four attributes are set, to empty values, so that nothing is
    requested again. *)
Theorem X18_no_clusters (inventory : Inventory)
  (name : string) (account : Account.t) (sent : list string)
  (response : Response (pydict (list string)))
  (body : pydict (list string)) :
  clusters_endpoint inventory sent (CLUSTERS_URL name) = Ok response ->
  json response = Ok body ->
  dict_get (Account.name account) body = Some [] ->
  App.instances_by_region inventory (fresh name account sent)
  = (Ok [],
     {| App.self :=
          App.with___instances_by_region []
            (App.with___servergroups []
               (App.with___clusterdetails []
                  (App.with___clusternames [] (App.__init__ name account))));
        App.sent := sent ++ [CLUSTERS_URL name] |}).
Proof.
  intros Hc Hj Hb.
  rewrite instances_by_region_eq, servergroups_unfold, clusterdetails_eq,
    clusternames_eq.
  cbn [fresh App.self App.__init__ App.__instances_by_region
       App.__servergroups App.__clusterdetails App.__clusternames
       App.name App.account App.sent].
  rewrite Hc, Hj, Hb. reflexivity.
Qed.

(** An inventory that lists no cluster for the account. *)
Lemma X18_no_clusters_witness :
  App.instances_by_region
    {| clusters_endpoint := fun _ _ => Ok {| json := Ok [("test", [])] |};
       clusterdetails_endpoint := fun _ _ => Raise (RequestException "unused") |}
    (fresh "checkout" test_account [])
  = (Ok [],
     {| App.self :=
          App.with___instances_by_region []
            (App.with___servergroups []
               (App.with___clusterdetails []
                  (App.with___clusternames []
                     (App.__init__ "checkout" test_account))));
        App.sent := [] ++ [CLUSTERS_URL "checkout"] |}).
Proof.
  apply (@X18_no_clusters
           {| clusters_endpoint :=
                fun _ _ => Ok {| json := Ok [("test", [])] |};
              clusterdetails_endpoint :=
                fun _ _ => Raise (RequestException "unused") |}
           "checkout" test_account []
           {| json := Ok [("test", [])] |} [("test", [])]);
    reflexivity.
Defined.

(* ================================================================= *)
(** ** More of app.py: the cache is transparent *)

Section Transparent.
Variable inventory : Inventory.
Hypothesis Hfixed : fixed inventory.
Variable name : string.
Variable account : Account.t.

Lemma fetch_fixed (names : list string) :
  forall d0 st,
    fst (fetch inventory name (Account.name account) names d0 st)
    = pure_fetch inventory name (Account.name account) names d0 /\
    App.self (snd (fetch inventory name (Account.name account) names d0 st))
    = App.self st.
Proof.
  destruct Hfixed as [_ Hd].
  induction names as [|c names IH]; intros d0 st.
  - split; reflexivity.
  - rewrite fetch_cons. cbv zeta. unfold pure_fetch. cbn [rfold].
    rewrite (Hd (App.sent st) []).
    destruct (clusterdetails_endpoint inventory [] _) as [response|e];
      cbn [rbind]; [|split; reflexivity].
    destruct (json response) as [body|e]; cbn [rbind]; [|split; reflexivity].
    destruct (IH (dict_set c body d0)
                {| App.self := App.self st;
                   App.sent :=
                     App.sent st
                     ++ [CLUSTERDETAILS_URL name (Account.name account) c] |})
      as [H1 H2].
    split; [exact H1|exact H2].
Qed.

Lemma clusternames_canonical st r st' :
  canonical inventory name account st ->
  App.clusternames inventory st = (r, st') ->
  r = pipeline_names inventory name account /\
  canonical inventory name account st'.
Proof.
  intros Hc. pose proof Hc as (N & A & C1 & C2 & C3 & C4).
  rewrite clusternames_eq.
  destruct (App.__clusternames (App.self st)) as [names|] eqn:H1.
  { intros E; injection E as <- <-. split; [now rewrite (C1 names)|exact Hc]. }
  assert (Hp : pipeline_names inventory name account
               = match clusters_endpoint inventory (App.sent st)
                         (CLUSTERS_URL name) with
                 | Ok response =>
                     match json response with
                     | Ok body =>
                         match dict_get (Account.name account) body with
                         | Some names => Ok names
                         | None => Raise (KeyError (Account.name account))
                         end
                     | Raise e => Raise e
                     end
                 | Raise e => Raise e
                 end).
  { unfold pipeline_names, getitem.
    destruct Hfixed as [Hl _]. rewrite (Hl (App.sent st) []).
    destruct (clusters_endpoint inventory [] (CLUSTERS_URL name))
      as [response|e]; cbn [rbind]; [|reflexivity].
    destruct (json response) as [body|e]; cbn [rbind]; reflexivity. }
  rewrite N, A.
  destruct (clusters_endpoint inventory (App.sent st) (CLUSTERS_URL name))
    as [response|e];
    [|intros E; injection E as <- <-; split; [now rewrite Hp|exact Hc]].
  destruct (json response) as [body|e];
    [|intros E; injection E as <- <-; split; [now rewrite Hp|exact Hc]].
  destruct (dict_get (Account.name account) body) as [names|];
    intros E; injection E as <- <-;
    (split; [now rewrite Hp|]); [|exact Hc].
  repeat split; cbn; try assumption.
  intros v E; injection E as <-. exact Hp.
Qed.

Lemma clusterdetails_canonical st r st' :
  canonical inventory name account st ->
  App.clusterdetails inventory st = (r, st') ->
  r = pipeline_details inventory name account /\
  canonical inventory name account st'.
Proof.
  intros Hc. pose proof Hc as (N & A & C1 & C2 & C3 & C4).
  rewrite clusterdetails_eq.
  destruct (App.__clusterdetails (App.self st)) as [details|] eqn:H2.
  { intros E; injection E as <- <-. split; [now rewrite (C2 details)|exact Hc]. }
  destruct (App.clusternames inventory st) as [[names|e] st1] eqn:E1;
    destruct (clusternames_canonical Hc E1) as [R1 Hc1].
  - rewrite N, A.
    destruct (fetch_fixed names [] st1) as [Hf Hs].
    destruct (fetch _ _ _ names [] st1) as [[details|e] st2] eqn:E2;
      cbn [fst snd] in Hf, Hs; intros E; injection E as <- <-;
      unfold pipeline_details; rewrite <- R1; cbn [rbind];
      (split; [now rewrite <- Hf|]).
    + destruct Hc1 as (N1 & A1 & D1 & D2 & D3 & D4).
      repeat split; cbn; rewrite ?Hs; try assumption.
      intros v E; injection E as <-.
      unfold pipeline_details. rewrite <- R1. cbn [rbind]. now rewrite <- Hf.
    + destruct Hc1 as (N1 & A1 & D1 & D2 & D3 & D4).
      repeat split; rewrite ?Hs; assumption.
  - intros E; injection E as <- <-.
    unfold pipeline_details. rewrite <- R1. split; [reflexivity|exact Hc1].
Qed.

Lemma servergroups_canonical st r st' :
  canonical inventory name account st ->
  App.servergroups inventory st = (r, st') ->
  r = pipeline_groups inventory name account /\
  canonical inventory name account st'.
Proof.
  intros Hc. pose proof Hc as (N & A & C1 & C2 & C3 & C4).
  rewrite servergroups_unfold.
  destruct (App.__servergroups (App.self st)) as [groups|] eqn:H3.
  { intros E; injection E as <- <-. split; [now rewrite (C3 groups)|exact Hc]. }
  destruct (App.clusterdetails inventory st) as [[details|e] st1] eqn:E2;
    destruct (clusterdetails_canonical Hc E2) as [R2 Hc1];
    unfold pipeline_groups; rewrite <- R2; cbn [rbind].
  - destruct (groups_of details) as [groups|e] eqn:Hg;
      intros E; injection E as <- <-; (split; [reflexivity|]);
      [|exact Hc1].
    destruct Hc1 as (N1 & A1 & D1 & D2 & D3 & D4).
    repeat split; cbn; try assumption.
    intros v E; injection E as <-.
    unfold pipeline_groups. rewrite <- R2. exact Hg.
  - intros E; injection E as <- <-. split; [reflexivity|exact Hc1].
Qed.

Lemma instances_by_region_canonical st r st' :
  canonical inventory name account st ->
  App.instances_by_region inventory st = (r, st') ->
  r = pipeline_by_region inventory name account /\
  canonical inventory name account st'.
Proof.
  intros Hc. pose proof Hc as (N & A & C1 & C2 & C3 & C4).
  rewrite instances_by_region_eq.
  destruct (App.__instances_by_region (App.self st)) as [b|] eqn:H4.
  { intros E; injection E as <- <-. split; [now rewrite (C4 b)|exact Hc]. }
  destruct (App.servergroups inventory st) as [[groups|e] st1] eqn:E3;
    destruct (servergroups_canonical Hc E3) as [R3 Hc1];
    unfold pipeline_by_region; rewrite <- R3; cbn [rbind].
  - destruct (regroup groups) as [b|e] eqn:Hr;
      intros E; injection E as <- <-; (split; [reflexivity|]);
      [|exact Hc1].
    destruct Hc1 as (N1 & A1 & D1 & D2 & D3 & D4).
    repeat split; cbn; try assumption.
    intros v E; injection E as <-.
    unfold pipeline_by_region. rewrite <- R3. exact Hr.
  - intros E; injection E as <- <-. split; [reflexivity|exact Hc1].
Qed.

Lemma access_canonical p st r st' :
  canonical inventory name account st ->
  App.access inventory p st = (r, st') ->
  r = pipeline inventory name account p /\
  canonical inventory name account st'.
Proof.
  intros Hc. rewrite access_eq. destruct p; cbn [pipeline].
  - destruct (App.clusternames inventory st) as [[v|e] st1] eqn:E;
      destruct (clusternames_canonical Hc E) as [<- Hc1];
      intros E'; injection E' as <- <-; now split.
  - destruct (App.clusterdetails inventory st) as [[v|e] st1] eqn:E;
      destruct (clusterdetails_canonical Hc E) as [<- Hc1];
      intros E'; injection E' as <- <-; now split.
  - destruct (App.servergroups inventory st) as [[v|e] st1] eqn:E;
      destruct (servergroups_canonical Hc E) as [<- Hc1];
      intros E'; injection E' as <- <-; now split.
  - destruct (App.instances_by_region inventory st) as [[v|e] st1] eqn:E;
      destruct (instances_by_region_canonical Hc E) as [<- Hc1];
      intros E'; injection E' as <- <-; now split.
Qed.

Lemma reachable_canonical (sent : list string) (ps : list App.property) :
  canonical inventory name account
    (after_reads inventory ps (fresh name account sent)).
Proof.
  assert (H0 : canonical inventory name account (fresh name account sent)).
  { repeat split; intros v E; discriminate E. }
  revert H0. generalize (fresh name account sent).
  unfold after_reads.
  induction ps as [|p ps IH]; intros st Hc; cbn [fold_left]; [assumption|].
  apply IH.
  destruct (App.access inventory p st) as [r st'] eqn:E.
  cbn [snd]. eapply access_canonical; eauto.
Qed.

End Transparent.

(** X20: for an inventory whose answers do not depend on the requests
    sent before, the cache is transparent.  On an instance that was
    constructed fresh and has had any properties read in any order, a
    read of a property returns, or raises, what the pipeline without the
    cache gives for that property: the value or error depends on the
    inventory, the application name and the account only, not on what was
    read before nor on what was requested before. *)
Theorem X20_cache_transparent (inventory : Inventory) (name : string)
  (account : Account.t) (sent : list string) (ps : list App.property)
  (p : App.property) :
  fixed inventory ->
  fst (App.access inventory p
         (after_reads inventory ps (fresh name account sent)))
  = pipeline inventory name account p.
Proof.
  intros Hfixed.
  destruct (App.access inventory p
              (after_reads inventory ps (fresh name account sent)))
    as [r st'] eqn:E.
  cbn [fst].
  eapply access_canonical; eauto. now apply reachable_canonical.
Qed.

(** The end-to-end inventory, after [clusterdetails] and [clusternames]
    have been read. *)
Lemma X20_cache_transparent_witness :
  fst (App.access checkout_inventory App.Instances_by_region
         (after_reads checkout_inventory
            [App.Clusterdetails; App.Clusternames]
            (fresh "checkout" test_account ["u0"])))
  = pipeline checkout_inventory "checkout" test_account
      App.Instances_by_region.
Proof.
  apply (@X20_cache_transparent checkout_inventory "checkout" test_account
           ["u0"] [App.Clusterdetails; App.Clusternames]
           App.Instances_by_region).
  split; reflexivity.
Defined.

(** X21: with such an inventory a retry cannot help.  A read that raised
    raises the same error when it is made again, whatever was read in
    between; the code has no retry of its own, and nothing it keeps makes
    a second attempt differ. *)
Theorem X21_retry_fails_again (inventory : Inventory) (name : string)
  (account : Account.t) (sent : list string) (ps ps' : list App.property)
  (p : App.property) (e : exn) (st' : App.state) :
  fixed inventory ->
  App.access inventory p (after_reads inventory ps (fresh name account sent))
  = (Raise e, st') ->
  fst (App.access inventory p (after_reads inventory ps' st')) = Raise e.
Proof.
  intros Hfixed E.
  destruct (@access_canonical inventory Hfixed name account p _ _ _
              (@reachable_canonical inventory Hfixed name account sent ps) E)
    as [He Hc].
  rewrite He.
  assert (Hc' : canonical inventory name account
                  (after_reads inventory ps' st')).
  { clear E He. revert st' Hc. unfold after_reads.
    induction ps' as [|q ps' IH]; intros st Hc; cbn [fold_left];
      [assumption|].
    apply IH.
    destruct (App.access inventory q st) as [r st1] eqn:Eq.
    cbn [snd].
    exact (proj2 (@access_canonical inventory Hfixed name account q _ _ _
                    Hc Eq)). }
  destruct (App.access inventory p (after_reads inventory ps' st'))
    as [r st2] eqn:E2.
  cbn [fst].
  exact (proj1 (@access_canonical inventory Hfixed name account p _ _ _
                  Hc' E2)).
Qed.

(** The refusing inventory: [clusterdetails] fails, [clusternames] is
    read, and [clusterdetails] fails again. *)
Lemma X21_retry_fails_again_witness :
  fst (App.access refusing_inventory App.Clusterdetails
         (after_reads refusing_inventory [App.Clusternames]
            (snd (App.access refusing_inventory App.Clusterdetails
                    (after_reads refusing_inventory []
                       (fresh "checkout" test_account []))))))
  = Raise (RequestException "connection refused").
Proof.
  apply (@X21_retry_fails_again refusing_inventory "checkout" test_account
           [] [] [App.Clusternames] App.Clusterdetails
           (RequestException "connection refused")
           (snd (App.access refusing_inventory App.Clusterdetails
                   (after_reads refusing_inventory []
                      (fresh "checkout" test_account []))))).
  - split; reflexivity.
  - reflexivity.
Defined.

(** X19: the cache is consistent in every state that reads reach from a
    fresh instance, whatever the inventory answers and whichever reads
    fail: cached cluster details have exactly the cached cluster names as
    keys, cached server groups are all the groups of the cached details,
    and a cached mapping is the regrouping of the cached groups. *)
Theorem X19_cache_consistent (inventory : Inventory) (name : string)
  (account : Account.t) (sent : list string) (ps : list App.property) :
  complete (App.self (after_reads inventory ps (fresh name account sent))).
Proof.
  assert (H0 : complete (App.self (fresh name account sent))).
  { repeat split; intros x Hx; discriminate. }
  revert H0. generalize (fresh name account sent).
  unfold after_reads.
  induction ps as [|p ps IH]; intros st Hc; cbn [fold_left]; [assumption|].
  apply IH.
  destruct (App.access inventory p st) as [r st'] eqn:E.
  cbn [snd]. eapply access_complete; eauto.
Qed.
